(** * The models store of [src/modules/llms/store-models.ts] and the persona table

    A shallow embedding of the zustand store that keeps the configured model
    sources and the models they advertise, of its helper
    [findUniqueSourceId], of the joined view [useJoinedLLMs], and of the
    static [SystemPurposes] table, followed by the properties proved of them.

    Conventions of the embedding:
    - a JavaScript string is a [string]; [===] on strings is Leibniz equality,
      decided by [bool_decide];
    - an array is a [list]; [Array.prototype.filter], [map] and [concat]
      are [filter], [fmap] and [++], and [find] is [array_find];
    - an optional field, and the [undefined] that [find] returns when nothing
      matches, is an [option];
    - a setup object is a finite map from property names to values ([gmap]),
      so that two objects with the same properties are equal;
    - [set(fn)] of zustand computes the partial state [fn(state)] and merges
      it over the current state, property by property. *)

From stdpp Require Import base option list strings pretty gmap fin_maps.

Local Open Scope string_scope.
Local Open Scope list_scope.
Local Open Scope nat_scope.

(** ** Values stored in a setup object *)

#[warnings="-register-all"]
Inductive jsval : Type :=
  | JUndefined
  | JNull
  | JBool (b : bool)
  | JNum (z : Z)
  | JStr (s : string)
  | JObj (fields : gmap string jsval).

(** [{ ...a, ...b }]: the properties of [b] laid over those of [a]; a
    property of [b] replaces the whole value [a] had under that name. *)
Definition spread (a b : gmap string jsval) : gmap string jsval := b ∪ a.

(** Spreading an [undefined] object contributes no property. *)
Definition spread_opt (a : option (gmap string jsval)) : gmap string jsval :=
  default ∅ a.

(** ** Data model *)

Definition DLLMId := string.
Definition DModelSourceId := string.
(** [ModelVendorId] comes from [./vendors-registry]: a union of string
    literals, carried here as a string. *)
Definition ModelVendorId := string.

(** Numeric fields are only stored and copied, never computed with. *)
Definition number := Z.

Module DLLM.
Record t : Type := make {
  uid : DLLMId;
  _sourceId : DModelSourceId;
  _sourceModelId : string;
  label : string;
  contextWindowSize : number;
  canStream : bool;
  canChat : bool;
  description : option string;
  tradeoff : option string;
  created : option number;
}.
End DLLM.
Abbreviation DLLM := DLLM.t (only parsing).

Module DModelSource.
Record t : Type := make {
  id : DModelSourceId;
  label : string;
  vendorId : ModelVendorId;
  setup : option (gmap string jsval);
}.
End DModelSource.
Abbreviation DModelSource := DModelSource.t (only parsing).

(** The data part of [ModelsStore]; its function-valued properties are the
    definitions [addLLMs] ... [updateSourceSetup] below. *)
Record ModelsStore : Type := {
  llms : list DLLM;
  sources : list DModelSource;
}.

(** What an updater hands to [set]: the properties it assigns. *)
Record PartialStore : Type := {
  set_llms : option (list DLLM);
  set_sources : option (list DModelSource);
}.

(** [set(fn)]: one state replacement, merging [fn(state)] over [state]. *)
Definition set (fn : ModelsStore → PartialStore) (state : ModelsStore) : ModelsStore :=
  let partial := fn state in
  {| llms := default (llms state) (set_llms partial);
     sources := default (sources state) (set_sources partial) |}.

(** The store as created: [llms: []], [sources: []]. *)
Definition initialStore : ModelsStore := {| llms := []; sources := [] |}.

(** A value used as a condition: an object is truthy, [undefined] is not. *)
Definition truthy {A} (o : option A) : bool :=
  match o with Some _ => true | None => false end.

(** [array.find(p)]: the first element that satisfies [p], [undefined]
    when none does. *)
Definition array_find {A} (P : A → Prop) `{!∀ x, Decision (P x)} (array : list A)
    : option A :=
  snd <$> list_find P array.

(** ** [findUniqueSourceId] *)

(** The loop of [findUniqueSourceId], entered with the current [id] and
    [count]; [fuel] bounds the number of times the condition is evaluated.
    [count] only takes the values 0, 1, 2, ... up to the length of the array
    (see [collisions_bounded]), integers that a JavaScript number holds
    exactly and that a template literal prints in decimal: [pretty]. *)
Fixpoint findUniqueSourceId_loop (fuel : nat) (vendorId : ModelVendorId)
    (otherSources : list DModelSource) (id : DModelSourceId) (count : nat)
    : option (DModelSourceId * nat) :=
  match fuel with
  | 0 => None
  | S fuel =>
      if truthy (array_find (λ source, DModelSource.id source = id) otherSources)
      then
        let count := S count in
        let id := vendorId +:+ "-" +:+ pretty count in
        findUniqueSourceId_loop fuel vendorId otherSources id count
      else Some (id, count)
  end.

Definition findUniqueSourceId_fuel (fuel : nat) (vendorId : ModelVendorId)
    (otherSources : list DModelSource) : option (DModelSourceId * nat) :=
  findUniqueSourceId_loop fuel vendorId otherSources vendorId 0.

(** The search needs at most one evaluation of the condition per source, and
    one more (see [findUniqueSourceId_loop_stops]). *)
Definition findUniqueSourceId (vendorId : ModelVendorId)
    (otherSources : list DModelSource) : option (DModelSourceId * nat) :=
  findUniqueSourceId_fuel (S (length otherSources)) vendorId otherSources.

(** The [count]-th id the loop tries. *)
Definition candidate (vendorId : ModelVendorId) (count : nat) : DModelSourceId :=
  match count with
  | 0 => vendorId
  | S _ => vendorId +:+ "-" +:+ pretty count
  end.

(** ** The mutations of the store *)

Definition addLLMs (models : list DLLM) : ModelsStore → ModelsStore :=
  set (λ state,
    {| set_llms := Some
         (filter (λ model,
            negb (truthy (array_find (λ m, DLLM.uid m = DLLM.uid model) models)))
            (llms state) ++ models);
       set_sources := None |}).

Definition removeLLM (uid : DLLMId) : ModelsStore → ModelsStore :=
  set (λ state,
    {| set_llms := Some (filter (λ model, DLLM.uid model ≠ uid) (llms state));
       set_sources := None |}).

Definition addSource (source : DModelSource) : ModelsStore → ModelsStore :=
  set (λ state,
    {| set_llms := None;
       set_sources := Some (sources state ++ [source]) |}).

Definition removeSource (sourceId : DModelSourceId) : ModelsStore → ModelsStore :=
  set (λ state,
    {| set_llms := Some (filter (λ model, DLLM._sourceId model ≠ sourceId) (llms state));
       set_sources := Some (filter (λ source, DModelSource.id source ≠ sourceId) (sources state)) |}).

Definition updateSourceSetup (sourceId : DModelSourceId) (setup : gmap string jsval)
    : ModelsStore → ModelsStore :=
  set (λ state,
    {| set_llms := None;
       set_sources := Some
         ((λ source : DModelSource,
             if bool_decide (DModelSource.id source = sourceId)
             then {| DModelSource.id := DModelSource.id source;
                     DModelSource.label := DModelSource.label source;
                     DModelSource.vendorId := DModelSource.vendorId source;
                     DModelSource.setup :=
                       Some (spread (spread_opt (DModelSource.setup source)) setup) |}
             else source) <$> sources state) |}).

(** ** The joined view *)

Record JoinedLLM : Type := {
  model : DLLM;
  sourceLabel : string;
  vendorId : option ModelVendorId;
}.

(** [useJoinedLLMs] on the state the store holds when it is called: both the
    subscribed [llms] and [getState().sources] are read from it. *)
Definition useJoinedLLMs (state : ModelsStore) : list JoinedLLM :=
  (λ model : DLLM,
     let modelSource :=
       array_find (λ source, DModelSource.id source = DLLM._sourceId model)
                  (sources state) in
     {| model := model;
        sourceLabel := default "Unknown" (DModelSource.label <$> modelSource);
        vendorId := from_option Some None (DModelSource.vendorId <$> modelSource) |})
  <$> llms state.

(** ** The calls a client can make, and the states they reach *)

Inductive action : Type :=
  | AddLLMs (models : list DLLM)
  | RemoveLLM (uid : DLLMId)
  | AddSource (source : DModelSource)
  | RemoveSource (sourceId : DModelSourceId)
  | UpdateSourceSetup (sourceId : DModelSourceId) (setup : gmap string jsval).

Definition perform (a : action) : ModelsStore → ModelsStore :=
  match a with
  | AddLLMs models => addLLMs models
  | RemoveLLM uid => removeLLM uid
  | AddSource source => addSource source
  | RemoveSource sourceId => removeSource sourceId
  | UpdateSourceSetup sourceId setup => updateSourceSetup sourceId setup
  end.

(** Performs the calls of [trace] one after the other, oldest first. *)
Definition run (trace : list action) (state : ModelsStore) : ModelsStore :=
  foldl (λ s a, perform a s) state trace.

Definition reachable (state : ModelsStore) : Prop :=
  ∃ trace, run trace initialStore = state.

(** The invariant the comment on [uid] announces: no two models of the store
    have the same [uid]. *)
Definition uid_unique (state : ModelsStore) : Prop :=
  NoDup (DLLM.uid <$> llms state).

(** ** The persona table *)

(** The members of the union type [SystemPurposeId]. *)
Inductive SystemPurposeId : Type :=
  | Catalyst | Custom | Designer | Developer | DeveloperPreview
  | Executive | Generic | Scientist.

(** The string literal each member is at run time: the property name under
    which the table is read. *)
Definition purposeKey (id : SystemPurposeId) : string :=
  match id with
  | Catalyst => "Catalyst"
  | Custom => "Custom"
  | Designer => "Designer"
  | Developer => "Developer"
  | DeveloperPreview => "DeveloperPreview"
  | Executive => "Executive"
  | Generic => "Generic"
  | Scientist => "Scientist"
  end.

Definition allSystemPurposeIds : list SystemPurposeId :=
  [Catalyst; Custom; Designer; Developer; DeveloperPreview; Executive; Generic; Scientist].

Definition defaultSystemPurposeId : SystemPurposeId := Generic.

Record CallData : Type := { starters : option (list string) }.
Record ElevenLabsVoice : Type := { voiceId : string }.
Record VoicesData : Type := { elevenLabs : option ElevenLabsVoice }.

Record SystemPurposeData : Type := {
  title : string;
  description : string;
  systemMessage : string;
  systemMessageNotes : option string;
  symbol : string;
  imageUri : option string;
  examples : option (list string);
  highlighted : option bool;
  call : option CallData;
  voices : option VoicesData;
}.

(** The object literal [SystemPurposes], property by property in the order
    of the source. *)
Definition SystemPurposes : list (string * SystemPurposeData) := [
  ("DeveloperPreview",
   {| title := "Developer";
      description := "Extended-capabilities Developer";
      systemMessage := "You are a sophisticated, accurate, and modern AI programming assistant.
Knowledge cutoff: {{Cutoff}}
Current date: {{LocaleNow}}

{{RenderMermaid}}
{{RenderPlantUML}}
{{RenderSVG}}
{{PreferTables}}
{{InputImage0}}
{{ToolBrowser0}}
";
      systemMessageNotes := None;
      symbol := "👨‍💻";
      imageUri := Some "/images/personas/dev_preview_icon_120x120.webp";
      examples := Some ["optimize my serverless architecture"; "implement a custom hook in my React app"; "migrate a js app to Next.js"; "optimize my AI model for energy efficiency"];
      highlighted := None;
      call := Some {| starters := Some ["Dev here. Got code?"; "Developer on call. What's the issue?"; "Ready to code."; "Hello."] |};
      voices := Some {| elevenLabs := Some {| voiceId := "yoZ06aMxZJJ28mfd3POQ" |} |} |});
  ("Developer",
   {| title := "Dev";
      description := "Helps you code";
      systemMessage := "You are a sophisticated, accurate, and modern AI programming assistant";
      systemMessageNotes := None;
      symbol := "👨‍💻";
      imageUri := None;
      examples := Some ["hello world in 10 languages"; "translate python to typescript"; "find and fix a bug in my code"; "add a mic feature to my NextJS app"; "automate tasks in React"];
      highlighted := None;
      call := Some {| starters := Some ["Dev here. Got code?"; "Developer on call. What's the issue?"; "Ready to code."; "Hello."] |};
      voices := Some {| elevenLabs := Some {| voiceId := "yoZ06aMxZJJ28mfd3POQ" |} |} |});
  ("Scientist",
   {| title := "Scientist";
      description := "Helps you write scientific papers";
      systemMessage := "You are a scientist's assistant. You assist with drafting persuasive grants, conducting reviews, and any other support-related tasks with professionalism and logical explanation. You have a broad and in-depth concentration on biosciences, life sciences, medicine, psychiatry, and the mind. Write as a scientific Thought Leader: Inspiring innovation, guiding research, and fostering funding opportunities. Focus on evidence-based information, emphasize data analysis, and promote curiosity and open-mindedness";
      systemMessageNotes := None;
      symbol := "🔬";
      imageUri := None;
      examples := Some ["write a grant proposal on human AGI"; "review this PDF with an eye for detail"; "explain the basics of quantum mechanics"; "how do I set up a PCR reaction?"; "the role of dark matter in the universe"];
      highlighted := None;
      call := Some {| starters := Some ["Scientific mind at your service. What's the question?"; "Scientist here. What's the query?"; "Ready for science talk."; "Yes?"] |};
      voices := Some {| elevenLabs := Some {| voiceId := "ErXwobaYiN019PkySvjV" |} |} |});
  ("Catalyst",
   {| title := "Catalyst";
      description := "Growth hacker with marketing superpowers 🚀";
      systemMessage := "You are a marketing extraordinaire for a booming startup fusing creativity, data-smarts, and digital prowess to skyrocket growth & wow audiences. So fun. Much meme. 🚀🎯💡";
      systemMessageNotes := None;
      symbol := "🚀";
      imageUri := None;
      examples := Some ["blog post on AGI in 2024"; "add much emojis to this tweet"; "overcome procrastination!"; "how can I improve my communication skills?"];
      highlighted := None;
      call := Some {| starters := Some ["Ready to skyrocket. What's up?"; "Growth hacker on line. What's the plan?"; "Marketing whiz ready."; "Hey."] |};
      voices := Some {| elevenLabs := Some {| voiceId := "EXAVITQu4vr4xnSDxMaL" |} |} |});
  ("Executive",
   {| title := "Executive";
      description := "Helps you write business emails";
      systemMessage := "You are an AI corporate assistant. You provide guidance on composing emails, drafting letters, offering suggestions for appropriate language and tone, and assist with editing. You are concise. You explain your process step-by-step and concisely. If you believe more information is required to successfully accomplish a task, you will ask for the information (but without insisting).
Knowledge cutoff: {{Cutoff}}
Current date: {{Today}}";
      systemMessageNotes := None;
      symbol := "👔";
      imageUri := None;
      examples := Some ["draft a letter to the board"; "write a memo to the CEO"; "help me with a SWOT analysis"; "how do I team build?"; "improve decision-making"];
      highlighted := None;
      call := Some {| starters := Some ["Let's get to business."; "Corporate assistant here. What's the task?"; "Ready for business."; "Hello."] |};
      voices := Some {| elevenLabs := Some {| voiceId := "21m00Tcm4TlvDq8ikWAM" |} |} |});
  ("Artist",
   {| title := "Artist";
      description := "Performs permanent makeup procedures";
      systemMessage := "You are a skilled and experienced permanent makeup artist. You specialize in listening to clients' requests, creating custom designs, and performing permanent makeup procedures safely and effectively.";
      systemMessageNotes := None;
      symbol := "🎨";
      imageUri := None;
      examples := Some ["Microblading: A manual technique used to fill in eyebrows with natural-looking, individual strokes."; "Powder Brows: A technique used to give eyebrows a soft, shaded appearance."; "Lip Blushing: A technique used to give lips a natural tint or enhance their natural color."; "Eyeliner: A technique used to give the upper and/or lower lash lines a permanent color."; "Scalp Micropigmentation (Hairline Tattoo): A technique used to thicken the hairline or fill in a receding hairline."];
      highlighted := None;
      call := Some {| starters := Some ["Ready for an artistic touch?"; "Your artist is here. How can I assist you?"; "I'm ready to unleash your creativity."] |};
      voices := Some {| elevenLabs := Some {| voiceId := "z9fAnlkpzviPz146aGWa" |} |} |});
  ("Generic",
   {| title := "Default";
      description := "Helps you think";
      systemMessage := "You are ChatGPT, a large language model trained by OpenAI, based on the GPT-4 architecture.
Knowledge cutoff: {{Cutoff}}
Current date: {{LocaleNow}}
";
      systemMessageNotes := None;
      symbol := "🧠";
      imageUri := None;
      examples := Some ["help me plan a trip to Japan"; "what is the meaning of life?"; "how do I get a job at OpenAI?"; "what are some healthy meal ideas?"];
      highlighted := None;
      call := Some {| starters := Some ["Hey, how can I assist?"; "AI assistant ready. What do you need?"; "Ready to assist."; "Hello."] |};
      voices := Some {| elevenLabs := Some {| voiceId := "z9fAnlkpzviPz146aGWa" |} |} |});
  ("Custom",
   {| title := "Custom";
      description := "Define the persona:";
      systemMessage := "You are ChatGPT, a large language model trained by OpenAI, based on the GPT-4 architecture.
Current date: {{Today}}";
      systemMessageNotes := None;
      symbol := "✨";
      imageUri := None;
      examples := None;
      highlighted := None;
      call := Some {| starters := Some ["What's the task?"; "What can I do?"; "Ready for your task."; "Yes?"] |};
      voices := Some {| elevenLabs := Some {| voiceId := "flq6f7yk4E4fJM5XTYuZ" |} |} |})
].

(** [SystemPurposes[key]]: the value of the property, [undefined] when the
    object has no property of that name. *)
Definition SystemPurposes_get (key : string) : option SystemPurposeData :=
  snd <$> array_find (λ entry, fst entry = key) SystemPurposes.

(** ** The source-setup hook *)

Module SourceSetup.
Record t (T : Type) : Type := make {
  setup : T;
  updateSetup : gmap string jsval → ModelsStore → ModelsStore;
}.
Arguments make {T} _ _.
Arguments setup {T} _.
Arguments updateSetup {T} _ _ _.
End SourceSetup.

(** [useSourceSetup] on the state the store holds when it is called. The
    selector normalizes [modelSource?.setup], which is [undefined] when no
    source has the id and when the source found has no setup; [updateSetup]
    is [updateSourceSetup] at the hook's id. *)
Definition useSourceSetup {T} (sourceId : DModelSourceId)
    (normalizer : option (gmap string jsval) → T) (state : ModelsStore)
    : SourceSetup.t T :=
  let modelSource :=
    array_find (λ source, DModelSource.id source = sourceId) (sources state) in
  {| SourceSetup.setup := normalizer (modelSource ≫= DModelSource.setup);
     SourceSetup.updateSetup :=
       λ partialSetup, updateSourceSetup sourceId partialSetup |}.

(** The callback that [updateSourceSetup] maps over the sources (see
    [updateSourceSetup_sources]). *)
Definition overlaySetup (sourceId : DModelSourceId) (setup : gmap string jsval)
    (source : DModelSource) : DModelSource :=
  if bool_decide (DModelSource.id source = sourceId)
  then {| DModelSource.id := DModelSource.id source;
          DModelSource.label := DModelSource.label source;
          DModelSource.vendorId := DModelSource.vendorId source;
          DModelSource.setup :=
            Some (spread (spread_opt (DModelSource.setup source)) setup) |}
  else source.

(** ** Conditions on a store *)

(** No two sources have the same id. *)
Definition sources_unique (state : ModelsStore) : Prop :=
  NoDup (DModelSource.id <$> sources state).

(** Every model refers to a source of the store (what the disabled clean-up
    of [onRehydrateStorage] would establish). *)
Definition no_dangling (state : ModelsStore) : Prop :=
  ∀ m, m ∈ llms state → DLLM._sourceId m ∈ DModelSource.id <$> sources state.

(** The lists given to [addLLMs] along a trace repeat no uid. *)
Definition distinct_uid_input (a : action) : Prop :=
  match a with
  | AddLLMs models => NoDup (DLLM.uid <$> models)
  | _ => True
  end.

(** ** Properties *)

Section removeSource_cascade.
Implicit Types (state : ModelsStore) (x : DModelSourceId).

Lemma removeSource_sources state x :
  sources (removeSource x state)
  = filter (λ source, DModelSource.id source ≠ x) (sources state).
Proof. reflexivity. Qed.

Lemma removeSource_llms state x :
  llms (removeSource x state)
  = filter (λ model, DLLM._sourceId model ≠ x) (llms state).
Proof. reflexivity. Qed.

Lemma useJoinedLLMs_models state :
  model <$> useJoinedLLMs state = llms state.
Proof.
  unfold useJoinedLLMs. rewrite <- list_fmap_compose.
  induction (llms state) as [|m l IH]; simpl; [done | by f_equal].
Qed.
End removeSource_cascade.

(** *** [array_find] and conditions *)

Section array_find.
Context {A} (P : A → Prop) `{!∀ x, Decision (P x)}.
Implicit Types (array : list A) (x : A).

Lemma array_find_Some array x :
  array_find P array = Some x ↔
  ∃ i, array !! i = Some x ∧ P x ∧ ∀ j y, array !! j = Some y → j < i → ¬ P y.
Proof.
  unfold array_find. rewrite fmap_Some. split.
  - intros [[i x'] [Hfind ->]]. exists i. simpl.
    by apply (list_find_Some P).
  - intros (i & Hi). exists (i, x). split; [by apply (list_find_Some P) | done].
Qed.

Lemma array_find_None array :
  array_find P array = None ↔ ∀ x, x ∈ array → ¬ P x.
Proof.
  unfold array_find. rewrite fmap_None, list_find_None. apply Forall_forall.
Qed.

Lemma truthy_array_find array :
  truthy (array_find P array) = true ↔ ∃ x, x ∈ array ∧ P x.
Proof.
  destruct (array_find P array) as [x|] eqn:Hfind; simpl.
  - apply array_find_Some in Hfind as (i & Hi & HP & _).
    split; [|done]. intros _. exists x. eauto using list_elem_of_lookup_2.
  - split; [done|]. intros (x & Hx & HP).
    by destruct (proj1 (array_find_None array) Hfind x Hx).
Qed.

Lemma not_truthy_array_find array :
  truthy (array_find P array) = false ↔ ∀ x, x ∈ array → ¬ P x.
Proof.
  rewrite <- array_find_None. destruct (array_find P array); simpl; naive_solver.
Qed.
End array_find.

Lemma filter_all_id {A} (P : A → Prop) `{!∀ x, Decision (P x)} (l : list A) :
  (∀ x, x ∈ l → P x) → filter P l = l.
Proof.
  induction l as [|x l IH]; intros Hall; [done|].
  rewrite filter_cons_True by (apply Hall; left).
  f_equal. apply IH. intros y Hy. apply Hall. by right.
Qed.

(** *** [findUniqueSourceId]: the ids tried, and why the search ends *)

Section findUniqueSourceId.
Variable vendorId : ModelVendorId.
Variable otherSources : list DModelSource.

(** The ids taken by [otherSources]. *)
Local Abbreviation ids := (DModelSource.id <$> otherSources).

Lemma collides_iff id :
  truthy (array_find (λ source, DModelSource.id source = id) otherSources) = true
  ↔ id ∈ ids.
Proof.
  rewrite truthy_array_find, list_elem_of_fmap. split.
  - intros (source & Hin & <-). by exists source.
  - intros (source & -> & Hin). by exists source.
Qed.

Lemma candidate_succ count :
  candidate vendorId (S count) = vendorId +:+ "-" +:+ pretty (S count).
Proof. reflexivity. Qed.

(** The ids tried are pairwise distinct. *)
Lemma candidate_inj : Inj (=) (=) (candidate vendorId).
Proof.
  assert (∀ n, vendorId ≠ vendorId +:+ "-" +:+ pretty (S n)) as Hne.
  { intros n. simpl. generalize (pretty (S n)). intros digits.
    induction vendorId as [|c prefix IH]; simpl; [done|].
    intros [=Heq]. by apply IH. }
  intros [|m] [|n] Heq; simpl in Heq.
  - done.
  - by destruct (Hne n).
  - by destruct (Hne m).
  - apply (inj (String.app vendorId)), (inj (String.app "-")) in Heq.
    by apply (inj pretty) in Heq.
Qed.

(** If the first [n] ids tried are all taken, there are at least [n]
    sources. *)
Lemma collisions_bounded n :
  (∀ k, k < n → candidate vendorId k ∈ ids) → n ≤ length otherSources.
Proof.
  intros Htaken.
  assert (candidate vendorId <$> seq 0 n ⊆+ ids) as Hsub.
  { apply NoDup_submseteq.
    - apply (NoDup_fmap_2 _ (Inj0 := candidate_inj)), NoDup_seq.
    - intros id (k & -> & Hk%elem_of_seq)%list_elem_of_fmap.
      apply Htaken. lia. }
  apply submseteq_length in Hsub.
  by rewrite !length_fmap, length_seq in Hsub.
Qed.

(** The loop, entered at [count] after [count] collisions, stops at the
    first id that is free, however much fuel is left beyond what it
    uses. *)
Lemma findUniqueSourceId_loop_stops fuel count :
  (∀ k, k < count → candidate vendorId k ∈ ids) →
  length otherSources < count + fuel →
  ∃ final,
    findUniqueSourceId_loop fuel vendorId otherSources (candidate vendorId count) count
      = Some (candidate vendorId final, final)
    ∧ count ≤ final ∧ final < count + fuel
    ∧ (candidate vendorId final ∉ ids)
    ∧ ∀ k, k < final → candidate vendorId k ∈ ids.
Proof.
  revert count. induction fuel as [|fuel IH]; intros count Htaken Hfuel.
  - apply collisions_bounded in Htaken. lia.
  - simpl.
    destruct (truthy _) eqn:Hcond.
    + apply collides_iff in Hcond.
      destruct (IH (S count)) as (final & Hrun & Hle & Hlt & Hfree & Hbelow).
      * intros k Hk. destruct (decide (k = count)) as [->|]; [done|].
        apply Htaken. lia.
      * lia.
      * exists final. rewrite candidate_succ in Hrun.
        split_and!; [done | lia | lia | done | done].
    + exists count. split_and!; [done | lia | lia | | done].
      intros Hin. apply collides_iff in Hin. congruence.
Qed.

(** Fuel beyond what a run uses does not change its result. *)
Lemma findUniqueSourceId_loop_more_fuel fuel fuel' id count result :
  findUniqueSourceId_loop fuel vendorId otherSources id count = Some result →
  fuel ≤ fuel' →
  findUniqueSourceId_loop fuel' vendorId otherSources id count = Some result.
Proof.
  revert fuel' id count.
  induction fuel as [|fuel IH]; intros fuel' id count Hrun Hle; [done|].
  destruct fuel' as [|fuel']; [lia|]. simpl in *.
  destruct (truthy _); [|done]. apply IH; [done | lia].
Qed.

(** A run that evaluates the condition [final + 1] times: it stops at
    [final], and not before. *)
Lemma findUniqueSourceId_loop_exact final :
  (∀ k, k < final → candidate vendorId k ∈ ids) →
  candidate vendorId final ∉ ids →
  ∀ count, count ≤ final →
    findUniqueSourceId_loop (S (final - count)) vendorId otherSources
      (candidate vendorId count) count = Some (candidate vendorId final, final)
    ∧ findUniqueSourceId_loop (final - count) vendorId otherSources
      (candidate vendorId count) count = None.
Proof.
  intros Htaken Hfree count Hle.
  remember (final - count) as d eqn:Hd. revert count Hle Hd.
  induction d as [|d IH]; intros count Hle Hd.
  - assert (count = final) as -> by lia. split; [|done]. simpl.
    destruct (truthy _) eqn:Hcond; [|done].
    by apply collides_iff in Hcond.
  - assert (count < final) as Hlt by lia.
    destruct (IH (S count)) as [Hrun Hnone]; [lia | lia |].
    change (findUniqueSourceId_loop (S (S d)) vendorId otherSources
              (candidate vendorId count) count)
      with (if truthy (array_find (λ source, DModelSource.id source = candidate vendorId count) otherSources)
            then findUniqueSourceId_loop (S d) vendorId otherSources
                   (candidate vendorId (S count)) (S count)
            else Some (candidate vendorId count, count)).
    change (findUniqueSourceId_loop (S d) vendorId otherSources
              (candidate vendorId count) count)
      with (if truthy (array_find (λ source, DModelSource.id source = candidate vendorId count) otherSources)
            then findUniqueSourceId_loop d vendorId otherSources
                   (candidate vendorId (S count)) (S count)
            else Some (candidate vendorId count, count)).
    rewrite (proj2 (collides_iff _) (Htaken count Hlt)). done.
Qed.
End findUniqueSourceId.

(** C2. [findUniqueSourceId] is a function of its two arguments alone and
    returns, for every [vendorId] and every list [otherSources], a pair
    [(id, count)] (with the fuel the definition gives it, and with any
    larger fuel) such that: no source of the list has [id] as its id; [id]
    is [vendorId] when [count] is 0 and [vendorId-count], with [count] in
    decimal, otherwise; each of the [count] ids tried before it, in the order
    [vendorId], [vendorId-1], [vendorId-2], ..., collided with a source, so
    that [count] is the number of collisions. With the single source
    ['openai'] and vendor ['openai'] the result is [('openai-1', 1)]. *)
Theorem findUniqueSourceId_unique_id :
  (∀ (vendorId : ModelVendorId) (otherSources : list DModelSource),
    ∃ id count,
      findUniqueSourceId vendorId otherSources = Some (id, count)
      ∧ (∀ fuel, S (length otherSources) ≤ fuel →
           findUniqueSourceId_fuel fuel vendorId otherSources = Some (id, count))
      ∧ (∀ source, source ∈ otherSources → DModelSource.id source ≠ id)
      ∧ (count = 0 → id = vendorId)
      ∧ (count ≠ 0 → id = vendorId +:+ "-" +:+ pretty count)
      ∧ (∀ k, k < count →
           ∃ source, source ∈ otherSources
                     ∧ DModelSource.id source = candidate vendorId k))
  ∧ (∀ label vendor setup,
      findUniqueSourceId "openai"
        [ {| DModelSource.id := "openai"; DModelSource.label := label;
             DModelSource.vendorId := vendor; DModelSource.setup := setup |} ]
      = Some ("openai-1", 1)).
Proof.
  split; [|done].
  intros vendorId otherSources.
  destruct (findUniqueSourceId_loop_stops vendorId otherSources
              (S (length otherSources)) 0)
    as (final & Hrun & _ & _ & Hfree & Hbelow); [lia | lia |].
  exists (candidate vendorId final), final. split_and!.
  - exact Hrun.
  - intros fuel Hfuel.
    by apply (findUniqueSourceId_loop_more_fuel _ _ (S (length otherSources))).
  - intros source Hin Heq. apply Hfree. rewrite <- Heq.
    by apply list_elem_of_fmap_2.
  - by intros ->.
  - by destruct final.
  - intros k Hk. apply Hbelow in Hk.
    apply list_elem_of_fmap in Hk as (source & Heq & Hin). by exists source.
Qed.

Lemma findUniqueSourceId_unique_id_witness :
  findUniqueSourceId "openai" [DModelSource.make "openai" "OpenAI" "openai" None]
  = Some ("openai-1", 1)
  ∧ ∃ id count,
      findUniqueSourceId "localai"
        [DModelSource.make "localai" "LocalAI" "localai" None;
         DModelSource.make "openai" "OpenAI" "openai" None;
         DModelSource.make "localai-1" "LocalAI #2" "localai" None]
      = Some (id, count)
      ∧ id = "localai-2" ∧ count = 2.
Proof.
  destruct findUniqueSourceId_unique_id as [Hall Hexample].
  split; [apply Hexample|].
  destruct (Hall "localai"
              [DModelSource.make "localai" "LocalAI" "localai" None;
               DModelSource.make "openai" "OpenAI" "openai" None;
               DModelSource.make "localai-1" "LocalAI #2" "localai" None])
    as (id & count & Hrun & _).
  exists id, count. split; [exact Hrun|].
  vm_compute in Hrun. by injection Hrun as <- <-.
Defined.

(** C9. The search of [findUniqueSourceId] ends on every input: it stops at
    an id that no source has after evaluating its condition exactly
    [count + 1] times (with that much fuel it returns, with one unit less it
    has not yet returned), where [count + 1 <= length otherSources + 1]; more
    fuel does not change the result. The ids tried are pairwise distinct. *)
Theorem findUniqueSourceId_terminates :
  ∀ (vendorId : ModelVendorId) (otherSources : list DModelSource),
    (∀ j k, candidate vendorId j = candidate vendorId k → j = k)
    ∧ ∃ id count,
        S count ≤ S (length otherSources)
        ∧ findUniqueSourceId_fuel (S count) vendorId otherSources = Some (id, count)
        ∧ findUniqueSourceId_fuel count vendorId otherSources = None
        ∧ (∀ fuel, S count ≤ fuel →
             findUniqueSourceId_fuel fuel vendorId otherSources = Some (id, count))
        ∧ (∀ source, source ∈ otherSources → DModelSource.id source ≠ id).
Proof.
  intros vendorId otherSources. split.
  { intros j k. apply candidate_inj. }
  destruct (findUniqueSourceId_loop_stops vendorId otherSources
              (S (length otherSources)) 0)
    as (final & _ & _ & Hlt & Hfree & Hbelow); [lia | lia |].
  destruct (findUniqueSourceId_loop_exact vendorId otherSources final Hbelow Hfree 0)
    as [Hrun Hnone]; [lia|].
  rewrite Nat.sub_0_r in Hrun, Hnone.
  exists (candidate vendorId final), final. split_and!.
  - lia.
  - exact Hrun.
  - exact Hnone.
  - intros fuel Hfuel.
    by apply (findUniqueSourceId_loop_more_fuel _ _ (S final)).
  - intros source Hin Heq. apply Hfree. rewrite <- Heq.
    by apply list_elem_of_fmap_2.
Qed.

Lemma findUniqueSourceId_terminates_witness :
  let otherSources :=
    [DModelSource.make "openai-1" "OpenAI #2" "openai" None;
     DModelSource.make "openai" "OpenAI" "openai" None] in
  ∃ id count,
    S count ≤ 3
    ∧ findUniqueSourceId_fuel (S count) "openai" otherSources = Some (id, count)
    ∧ findUniqueSourceId_fuel count "openai" otherSources = None
    ∧ id = "openai-2" ∧ count = 2.
Proof.
  intros otherSources.
  destruct (findUniqueSourceId_terminates "openai" otherSources)
    as (_ & id & count & Hbound & Hrun & Hnone & Hmore & _).
  exists id, count. split_and!; [exact Hbound | exact Hrun | exact Hnone | |].
  - specialize (Hmore 3 Hbound). vm_compute in Hmore. by injection Hmore as <- _.
  - specialize (Hmore 3 Hbound). vm_compute in Hmore. by injection Hmore as _ <-.
Defined.

(** *** [removeSource] and the joined view *)

(** C1. For every state and every source id [x], [removeSource x] is one
    state replacement that filters both collections of the state it starts
    from; in the state it produces no source has id [x] and no model has
    [_sourceId] [x], so that no tuple of [useJoinedLLMs] on that state is
    about a model whose [_sourceId] is [x]. *)
Theorem removeSource_cascades (state : ModelsStore) (x : DModelSourceId) :
  removeSource x state
  = {| llms := filter (λ model, DLLM._sourceId model ≠ x) (llms state);
       sources := filter (λ source, DModelSource.id source ≠ x) (sources state) |}
  ∧ (∀ source, source ∈ sources (removeSource x state) → DModelSource.id source ≠ x)
  ∧ (∀ model, model ∈ llms (removeSource x state) → DLLM._sourceId model ≠ x)
  ∧ (∀ joined, joined ∈ useJoinedLLMs (removeSource x state) →
       DLLM._sourceId (model joined) ≠ x).
Proof.
  split_and!.
  - reflexivity.
  - intros source. rewrite removeSource_sources, list_elem_of_filter. tauto.
  - intros m. rewrite removeSource_llms, list_elem_of_filter. tauto.
  - intros joined Hin.
    apply (list_elem_of_fmap_2 model) in Hin.
    rewrite useJoinedLLMs_models, removeSource_llms in Hin.
    apply list_elem_of_filter in Hin. tauto.
Qed.

Lemma removeSource_cascades_witness :
  let kept := DLLM.make "localai-llama" "localai" "llama" "Llama" 4096%Z true true None None None in
  let gone := DLLM.make "openai-gpt-4" "openai" "gpt-4" "GPT-4" 8192%Z true true None None None in
  let state :=
    {| llms := [gone; kept];
       sources := [DModelSource.make "openai" "OpenAI" "openai" None;
                   DModelSource.make "localai" "LocalAI" "localai" None] |} in
  model <$> useJoinedLLMs (removeSource "openai" state) = [kept]
  ∧ ∀ joined, joined ∈ useJoinedLLMs (removeSource "openai" state) →
      DLLM._sourceId (model joined) ≠ "openai".
Proof.
  intros kept gone state. split; [reflexivity|].
  apply (removeSource_cascades state "openai").
Defined.

(** C5. [useJoinedLLMs] yields one tuple per model of the state, in the order
    of the models: the tuple at a model's position holds that model, and
    either the label and vendor id of the first source whose id is the
    model's [_sourceId], or, when no source has that id, ['Unknown'] and
    [null]. The sources consulted are those of the state it is called on. *)
Theorem useJoinedLLMs_tuples (state : ModelsStore) :
  length (useJoinedLLMs state) = length (llms state)
  ∧ ∀ i m, llms state !! i = Some m →
      ∃ joined,
        useJoinedLLMs state !! i = Some joined
        ∧ model joined = m
        ∧ ((∃ k source,
              sources state !! k = Some source
              ∧ DModelSource.id source = DLLM._sourceId m
              ∧ (∀ j earlier, sources state !! j = Some earlier → j < k →
                   DModelSource.id earlier ≠ DLLM._sourceId m)
              ∧ sourceLabel joined = DModelSource.label source
              ∧ vendorId joined = Some (DModelSource.vendorId source))
           ∨ ((∀ source, source ∈ sources state →
                 DModelSource.id source ≠ DLLM._sourceId m)
              ∧ sourceLabel joined = "Unknown"
              ∧ vendorId joined = None)).
Proof.
  split.
  { unfold useJoinedLLMs. apply length_fmap. }
  intros i m Hm. unfold useJoinedLLMs.
  rewrite list_lookup_fmap, Hm. simpl.
  eexists. split; [reflexivity|]. simpl. split; [reflexivity|].
  destruct (array_find _ (sources state)) as [source|] eqn:Hfind; simpl.
  - left. apply array_find_Some in Hfind as (k & Hk & Hid & Hfirst).
    exists k, source. split_and!; done.
  - right. split_and!; [|done..].
    exact (proj1 (array_find_None _ _) Hfind).
Qed.

Lemma useJoinedLLMs_tuples_witness :
  let known := DLLM.make "openai-gpt-4" "openai" "gpt-4" "GPT-4" 8192%Z true true None None None in
  let orphan := DLLM.make "old-llama" "removed" "llama" "Llama" 4096%Z true true None None None in
  let state :=
    {| llms := [known; orphan];
       sources := [DModelSource.make "openai" "OpenAI" "openai" None] |} in
  useJoinedLLMs state
  = [ {| model := known; sourceLabel := "OpenAI"; vendorId := Some "openai" |};
      {| model := orphan; sourceLabel := "Unknown"; vendorId := None |} ]
  ∧ ∃ joined, useJoinedLLMs state !! 1 = Some joined ∧ model joined = orphan.
Proof.
  intros known orphan state. split; [reflexivity|].
  destruct (useJoinedLLMs_tuples state) as [_ Htuple].
  destruct (Htuple 1 orphan eq_refl) as (joined & Hlookup & Hmodel & _).
  by exists joined.
Defined.

(** *** What each mutation leaves alone *)

(** C10. [addLLMs] and [removeLLM] leave [sources] as it was; [addSource]
    leaves [llms] as it was; [updateSourceSetup] leaves [llms] as it was,
    keeps the number of sources, and leaves in place and unchanged every
    source whose id is not the one given. *)
Theorem mutations_frame (state : ModelsStore) :
  (∀ models, sources (addLLMs models state) = sources state)
  ∧ (∀ uid, sources (removeLLM uid state) = sources state)
  ∧ (∀ source, llms (addSource source state) = llms state)
  ∧ (∀ sourceId setup,
       llms (updateSourceSetup sourceId setup state) = llms state
       ∧ length (sources (updateSourceSetup sourceId setup state))
         = length (sources state)
       ∧ ∀ i source,
           sources state !! i = Some source →
           DModelSource.id source ≠ sourceId →
           sources (updateSourceSetup sourceId setup state) !! i = Some source).
Proof.
  split_and!; try done.
  intros sourceId setup. split_and!; [done | apply length_fmap |].
  intros i source Hi Hne. simpl.
  rewrite list_lookup_fmap, Hi. simpl.
  by rewrite bool_decide_eq_false_2.
Qed.

Lemma mutations_frame_witness :
  let openai := DModelSource.make "openai" "OpenAI" "openai" None in
  let localai := DModelSource.make "localai" "LocalAI" "localai" None in
  let state := {| llms := []; sources := [openai; localai] |} in
  sources (updateSourceSetup "openai" {[ "oaiKey" := JStr "sk-0" ]} state) !! 1
  = Some localai.
Proof.
  intros openai localai state.
  destruct (mutations_frame state) as (_ & _ & _ & Hupdate).
  destruct (Hupdate "openai" {[ "oaiKey" := JStr "sk-0" ]}) as (_ & _ & Hother).
  apply Hother; [reflexivity | done].
Defined.

(** *** [addLLMs] *)

Lemma filter_none_nil {A} (P : A → Prop) `{!∀ x, Decision (P x)} (l : list A) :
  (∀ x, x ∈ l → ¬ P x) → filter P l = [].
Proof.
  induction l as [|x l IH]; intros Hnone; [done|].
  rewrite filter_cons_False by (apply Hnone; left).
  apply IH. intros y Hy. apply Hnone. by right.
Qed.

(** The condition of the filter in [addLLMs], read on the uids. *)
Lemma addLLMs_keeps_iff (models : list DLLM) (existing : DLLM) :
  negb (truthy (array_find (λ m, DLLM.uid m = DLLM.uid existing) models))
  ↔ DLLM.uid existing ∉ DLLM.uid <$> models.
Proof.
  rewrite list_elem_of_fmap.
  destruct (truthy _) eqn:Hcond; simpl.
  - apply truthy_array_find in Hcond as (m & Hin & Heq).
    split; [done|]. intros Hnot. apply Hnot. by exists m.
  - split; [|done]. intros _ (m & Heq & Hin).
    by apply (proj1 (not_truthy_array_find _ _) Hcond m).
Qed.

Lemma addLLMs_llms (models : list DLLM) (state : ModelsStore) :
  llms (addLLMs models state)
  = filter (λ existing, DLLM.uid existing ∉ DLLM.uid <$> models) (llms state)
    ++ models.
Proof.
  simpl. f_equal. apply list_filter_iff. intros existing.
  apply addLLMs_keeps_iff.
Qed.

Lemma addLLMs_incoming_uid (models : list DLLM) (state : ModelsStore) (u : DLLMId) :
  u ∈ DLLM.uid <$> models →
  filter (λ m, DLLM.uid m = u) (llms (addLLMs models state))
  = filter (λ m, DLLM.uid m = u) models.
Proof.
  intros Hu. rewrite addLLMs_llms, filter_app.
  rewrite (filter_none_nil (λ m, DLLM.uid m = u)); [done|].
  intros existing [Hkeep _]%list_elem_of_filter Heq. by rewrite Heq in Hkeep.
Qed.

(** C3. [addLLMs models] leaves, in their order, the models of the state
    whose uid is the uid of no incoming model, and puts the incoming models
    after them, in their order: a model whose uid matches is removed and the
    incoming one is appended, the others are appended at the end. For a uid
    that comes in, the models of the new state with that uid are exactly the
    incoming ones with that uid; when no uid matches, the state's models are
    all kept. Two calls with one model each, the two of the same uid, leave
    exactly one model of that uid: the second one, with its label. *)
Theorem addLLMs_replaces :
  (∀ state models,
     llms (addLLMs models state)
     = filter (λ existing, DLLM.uid existing ∉ DLLM.uid <$> models) (llms state)
       ++ models)
  ∧ (∀ state models u,
       u ∈ DLLM.uid <$> models →
       filter (λ m, DLLM.uid m = u) (llms (addLLMs models state))
       = filter (λ m, DLLM.uid m = u) models)
  ∧ (∀ state models,
       (∀ existing, existing ∈ llms state → DLLM.uid existing ∉ DLLM.uid <$> models) →
       llms (addLLMs models state) = llms state ++ models)
  ∧ (∀ state m1 m2,
       DLLM.uid m1 = DLLM.uid m2 →
       let state2 := addLLMs [m2] (addLLMs [m1] state) in
       filter (λ m, DLLM.uid m = DLLM.uid m1) (llms state2) = [m2]
       ∧ ∀ m, m ∈ llms state2 → DLLM.uid m = DLLM.uid m1 →
           DLLM.label m = DLLM.label m2).
Proof.
  split_and!.
  - intros. apply addLLMs_llms.
  - intros. by apply addLLMs_incoming_uid.
  - intros state models Hfresh. rewrite addLLMs_llms.
    by rewrite (filter_all_id _ _ Hfresh).
  - intros state m1 m2 Huid state2.
    assert (filter (λ m, DLLM.uid m = DLLM.uid m1) (llms state2) = [m2]) as Hone.
    { unfold state2. rewrite addLLMs_incoming_uid.
      - by rewrite filter_cons_True, filter_nil by (by symmetry).
      - rewrite Huid. simpl. left. }
    split; [done|]. intros m Hin Hm.
    assert (m ∈ [m2]) as Hm2.
    { rewrite <- Hone. by apply list_elem_of_filter. }
    by apply list_elem_of_singleton in Hm2 as ->.
Qed.

Lemma addLLMs_replaces_witness :
  let m1 := DLLM.make "gpt-4" "openai" "gpt-4-0613" "GPT-4" 8192%Z true true None None None in
  let m2 := DLLM.make "gpt-4" "openai" "gpt-4-0613" "GPT-4 (June)" 8192%Z true true None None None in
  llms (addLLMs [m2] (addLLMs [m1] initialStore)) = [m2]
  ∧ filter (λ m, DLLM.uid m = DLLM.uid m1)
           (llms (addLLMs [m2] (addLLMs [m1] initialStore))) = [m2].
Proof.
  intros m1 m2. split; [reflexivity|].
  destruct addLLMs_replaces as (_ & _ & _ & Htwice).
  apply (Htwice initialStore m1 m2). reflexivity.
Defined.

(** *** [updateSourceSetup] *)

(** The object the spread [{ ...source.setup, ...setup }] builds, property by
    property. *)
Lemma spread_lookup (existing : option (gmap string jsval))
    (partial : gmap string jsval) (key : string) :
  spread (spread_opt existing) partial !! key
  = match partial !! key with
    | Some value => Some value
    | None => spread_opt existing !! key
    end.
Proof.
  unfold spread. rewrite lookup_union.
  destruct (partial !! key) as [value|]; [|by rewrite (left_id None _)].
  by destruct (spread_opt existing !! key).
Qed.

Lemma updateSourceSetup_absent (sourceId : DModelSourceId)
    (partial : gmap string jsval) (state : ModelsStore) :
  (∀ source, source ∈ sources state → DModelSource.id source ≠ sourceId) →
  updateSourceSetup sourceId partial state = state.
Proof.
  intros Habsent. destruct state as [models srcs]. unfold updateSourceSetup, set.
  simpl in *. f_equal.
  induction srcs as [|source srcs IH]; [done|]. csimpl.
  rewrite bool_decide_eq_false_2 by (apply Habsent; left).
  f_equal. apply IH. intros other Hin. apply Habsent. by right.
Qed.

Lemma updateSourceSetup_lookup (sourceId : DModelSourceId)
    (partial : gmap string jsval) (state : ModelsStore) (i : nat)
    (source : DModelSource) :
  sources state !! i = Some source →
  DModelSource.id source = sourceId →
  sources (updateSourceSetup sourceId partial state) !! i
  = Some {| DModelSource.id := DModelSource.id source;
            DModelSource.label := DModelSource.label source;
            DModelSource.vendorId := DModelSource.vendorId source;
            DModelSource.setup :=
              Some (spread (spread_opt (DModelSource.setup source)) partial) |}.
Proof.
  intros Hi Hid. simpl. rewrite list_lookup_fmap, Hi. simpl.
  by rewrite bool_decide_eq_true_2.
Qed.

(** C4. When the source at some position has the given id,
    [updateSourceSetup] puts in its place the same source with a setup in
    which every property of [partial] has the value [partial] gives it, whole,
    and every other property has the value the existing setup gave it (none,
    when the source had no setup). Two updates, [{a: 1}] then [{b: 2}], of a
    source whose setup held neither property leave both properties; on a
    source without setup the result is [{a: 1, b: 2}]. When no source has the
    id, the state is unchanged. *)
Theorem updateSourceSetup_shallow_merge :
  (∀ state sourceId partial i source,
     sources state !! i = Some source →
     DModelSource.id source = sourceId →
     ∃ merged,
       sources (updateSourceSetup sourceId partial state) !! i
       = Some {| DModelSource.id := DModelSource.id source;
                 DModelSource.label := DModelSource.label source;
                 DModelSource.vendorId := DModelSource.vendorId source;
                 DModelSource.setup := Some merged |}
       ∧ (∀ key value, partial !! key = Some value → merged !! key = Some value)
       ∧ (∀ key, partial !! key = None →
            merged !! key = default ∅ (DModelSource.setup source) !! key))
  ∧ (∀ state sourceId i source,
       sources state !! i = Some source →
       DModelSource.id source = sourceId →
       ∃ updated,
         sources (updateSourceSetup sourceId {[ "b" := JNum 2 ]}
                    (updateSourceSetup sourceId {[ "a" := JNum 1 ]} state)) !! i
         = Some updated
         ∧ DModelSource.setup updated
           = Some ({[ "a" := JNum 1; "b" := JNum 2 ]}
                   ∪ default ∅ (DModelSource.setup source)))
  ∧ (∀ state sourceId partial,
       (∀ source, source ∈ sources state → DModelSource.id source ≠ sourceId) →
       updateSourceSetup sourceId partial state = state).
Proof.
  split_and!.
  - intros state sourceId partial i source Hi Hid.
    eexists. split; [by apply updateSourceSetup_lookup|].
    split.
    + intros key value Hkey. by rewrite spread_lookup, Hkey.
    + intros key Hkey. by rewrite spread_lookup, Hkey.
  - intros state sourceId i source Hi Hid.
    pose proof (updateSourceSetup_lookup sourceId {[ "a" := JNum 1 ]} state i
                  source Hi Hid) as Hfirst.
    pose proof (updateSourceSetup_lookup sourceId {[ "b" := JNum 2 ]} _ i _
                  Hfirst Hid) as Hsecond.
    eexists. split; [exact Hsecond|].
    simpl. f_equal. unfold spread, spread_opt. simpl.
    by rewrite (assoc_L (∪)).
  - intros. by apply updateSourceSetup_absent.
Qed.

Lemma updateSourceSetup_shallow_merge_witness :
  let source := DModelSource.make "openai" "OpenAI" "openai" None in
  let state := {| llms := []; sources := [source] |} in
  ∃ updated,
    sources (updateSourceSetup "openai" {[ "b" := JNum 2 ]}
               (updateSourceSetup "openai" {[ "a" := JNum 1 ]} state)) !! 0
    = Some updated
    ∧ DModelSource.setup updated = Some {[ "a" := JNum 1; "b" := JNum 2 ]}.
Proof.
  intros source state.
  destruct updateSourceSetup_shallow_merge as (_ & Htwice & _).
  destruct (Htwice state "openai" 0 source eq_refl eq_refl)
    as (updated & Hlookup & Hsetup).
  exists updated. split; [exact Hlookup|].
  rewrite Hsetup. reflexivity.
Defined.

(** The overlay is one level deep: an object-valued property of the update
    replaces the object the setup held, it is not merged into it. *)
Example updateSourceSetup_not_deep :
  let inner_old : gmap string jsval := {[ "x" := JNum 1 ]} in
  let inner_new : gmap string jsval := {[ "y" := JNum 2 ]} in
  let source :=
    DModelSource.make "localai" "LocalAI" "localai" (Some {[ "o" := JObj inner_old ]}) in
  sources (updateSourceSetup "localai" {[ "o" := JObj inner_new ]}
             {| llms := []; sources := [source] |})
  = [DModelSource.make "localai" "LocalAI" "localai" (Some {[ "o" := JObj inner_new ]})].
Proof. reflexivity. Qed.

(** *** Ids that match nothing *)

Lemma removeLLM_absent (uid : DLLMId) (state : ModelsStore) :
  (∀ m, m ∈ llms state → DLLM.uid m ≠ uid) → removeLLM uid state = state.
Proof.
  intros Habsent. destruct state as [models srcs]. unfold removeLLM, set.
  simpl in *. f_equal. by apply filter_all_id.
Qed.

Lemma removeSource_absent (sourceId : DModelSourceId) (state : ModelsStore) :
  (∀ source, source ∈ sources state → DModelSource.id source ≠ sourceId) →
  (∀ m, m ∈ llms state → DLLM._sourceId m ≠ sourceId) →
  removeSource sourceId state = state.
Proof.
  intros Hsources Hllms. destruct state as [models srcs]. unfold removeSource, set.
  simpl in *. f_equal; by apply filter_all_id.
Qed.

Lemma removeSource_missing_source (sourceId : DModelSourceId) (state : ModelsStore) :
  (∀ source, source ∈ sources state → DModelSource.id source ≠ sourceId) →
  removeSource sourceId state
  = {| llms := filter (λ m, DLLM._sourceId m ≠ sourceId) (llms state);
       sources := sources state |}.
Proof.
  intros Hsources. destruct state as [models srcs]. unfold removeSource, set.
  simpl in *. f_equal. by apply filter_all_id.
Qed.

(** C6, as the code has it. Every operation of the registry is a function
    of the state, defined on every state and every argument: none of the
    array and object operations it is made of can throw. On an id that is
    missing, [removeLLM] (no model has the uid) and [updateSourceSetup] (no
    source has the id) return the state they were given, and [addLLMs] of
    models whose uids match no model only appends. [removeSource] of an id
    that no source has leaves the sources as they were and still takes away
    the models that refer to the id: it returns the state it was given
    exactly when no model refers to the id. In the joined view a model whose
    [_sourceId] matches no source gets the label ['Unknown'] and the vendor
    id [null]. *)
Theorem operations_total_missing_ids (state : ModelsStore) :
  (∀ uid,
     (∀ m, m ∈ llms state → DLLM.uid m ≠ uid) →
     removeLLM uid state = state)
  ∧ (∀ sourceId partial,
       (∀ source, source ∈ sources state → DModelSource.id source ≠ sourceId) →
       updateSourceSetup sourceId partial state = state)
  ∧ (∀ sourceId,
       (∀ source, source ∈ sources state → DModelSource.id source ≠ sourceId) →
       removeSource sourceId state
       = {| llms := filter (λ m, DLLM._sourceId m ≠ sourceId) (llms state);
            sources := sources state |}
       ∧ (removeSource sourceId state = state
          ↔ ∀ m, m ∈ llms state → DLLM._sourceId m ≠ sourceId))
  ∧ (∀ models,
       (∀ m, m ∈ llms state → DLLM.uid m ∉ DLLM.uid <$> models) →
       addLLMs models state
       = {| llms := llms state ++ models; sources := sources state |})
  ∧ (∀ joined,
       joined ∈ useJoinedLLMs state →
       (∀ source, source ∈ sources state →
          DModelSource.id source ≠ DLLM._sourceId (model joined)) →
       sourceLabel joined = "Unknown" ∧ vendorId joined = None).
Proof.
  split_and!.
  - intros. by apply removeLLM_absent.
  - intros. by apply updateSourceSetup_absent.
  - intros sourceId Hsources. split.
    + apply removeSource_missing_source. exact Hsources.
    + split.
      * intros Hsame m Hin.
        apply (f_equal llms) in Hsame. rewrite removeSource_llms in Hsame.
        rewrite <- Hsame in Hin. by apply list_elem_of_filter in Hin as [? _].
      * intros Hllms. by apply removeSource_absent.
  - intros models Hfresh.
    pose proof (addLLMs_llms models state) as Hllms.
    rewrite (filter_all_id _ _ Hfresh) in Hllms.
    destruct state as [existing srcs]. unfold addLLMs, set in *. simpl in *.
    by f_equal.
  - intros joined Hin Hmissing.
    unfold useJoinedLLMs in Hin.
    apply list_elem_of_fmap in Hin as (m & -> & Hm). simpl in *.
    apply (array_find_None (λ source, DModelSource.id source = DLLM._sourceId m))
      in Hmissing.
    by rewrite Hmissing.
Qed.

Lemma operations_total_missing_ids_witness :
  let m := DLLM.make "gpt-4" "gone" "gpt-4-0613" "GPT-4" 8192%Z true true None None None in
  let source := DModelSource.make "openai" "OpenAI" "openai" None in
  let state := {| llms := [m]; sources := [source] |} in
  removeLLM "gpt-3.5" state = state
  ∧ updateSourceSetup "gone" {[ "host" := JStr "http://localhost:8080" ]} state = state
  ∧ removeSource "localai" state = state
  ∧ removeSource "gone" state = {| llms := []; sources := [source] |}
  ∧ (sourceLabel <$> useJoinedLLMs state) = ["Unknown"]
  ∧ (vendorId <$> useJoinedLLMs state) = [None].
Proof.
  intros m source state.
  destruct (operations_total_missing_ids state)
    as (HremoveLLM & Hupdate & HremoveSource & _ & _).
  split_and!.
  - apply HremoveLLM. intros m' ->%list_elem_of_singleton. done.
  - apply Hupdate. intros source' ->%list_elem_of_singleton. done.
  - apply HremoveSource.
    + intros source' ->%list_elem_of_singleton. done.
    + intros m' ->%list_elem_of_singleton. done.
  - destruct (HremoveSource "gone") as [Hshape _].
    + intros source' ->%list_elem_of_singleton. done.
    + rewrite Hshape. reflexivity.
  - reflexivity.
  - reflexivity.
Defined.

(** C6 as it was stated fails for [removeSource]: in a store that calls of
    the registry reach, no source has the id ['gone'], and yet
    [removeSource 'gone'] is no no-op: it removes the model that refers to
    the id. [updateSourceSetup] of the same id on the same store is one. *)
Lemma removeSource_missing_id_not_noop :
  let m := DLLM.make "gpt-4" "gone" "gpt-4-0613" "GPT-4" 8192%Z true true None None None in
  let source := DModelSource.make "openai" "OpenAI" "openai" None in
  let state := run [AddSource source; AddLLMs [m]] initialStore in
  reachable state
  ∧ (∀ other, other ∈ sources state → DModelSource.id other ≠ "gone")
  ∧ llms state = [m]
  ∧ llms (removeSource "gone" state) = []
  ∧ removeSource "gone" state ≠ state
  ∧ ¬ (∀ (s : ModelsStore) (sourceId : DModelSourceId),
         (∀ other, other ∈ sources s → DModelSource.id other ≠ sourceId) →
         removeSource sourceId s = s).
Proof.
  intros m source state.
  assert (∀ other, other ∈ sources state → DModelSource.id other ≠ "gone")
    as Hmissing.
  { intros other Hin. change (sources state) with [source] in Hin.
    by apply list_elem_of_singleton in Hin as ->. }
  assert (removeSource "gone" state ≠ state) as Hchanged.
  { intros Hsame. apply (f_equal llms) in Hsame. discriminate Hsame. }
  split_and!.
  - by exists [AddSource source; AddLLMs [m]].
  - exact Hmissing.
  - reflexivity.
  - reflexivity.
  - exact Hchanged.
  - intros Hnoop. apply Hchanged. by apply Hnoop.
Qed.

(** An id that no source has may still be the [_sourceId] of a model (nothing
    checks it when the model is added); [removeSource] of such an id removes
    that model. *)
Example removeSource_dangling :
  let m := DLLM.make "gpt-4" "gone" "gpt-4-0613" "GPT-4" 8192%Z true true None None None in
  removeSource "gone" (addLLMs [m] initialStore) = initialStore.
Proof. reflexivity. Qed.

(** *** Uniqueness of [uid] *)

Lemma uid_unique_filter (P : DLLM → Prop) `{!∀ m, Decision (P m)} (models : list DLLM) :
  NoDup (DLLM.uid <$> models) → NoDup (DLLM.uid <$> filter P models).
Proof.
  intros Hnodup. eapply sublist_NoDup; [exact Hnodup|].
  apply fmap_sublist, sublist_filter.
Qed.

(** Every call keeps the uids distinct, provided the list given to
    [addLLMs] does not itself repeat a uid. *)
Lemma perform_uid_unique (a : action) (state : ModelsStore) :
  (∀ models, a = AddLLMs models → NoDup (DLLM.uid <$> models)) →
  uid_unique state → uid_unique (perform a state).
Proof.
  unfold uid_unique. intros Hinput Hstate.
  destruct a as [models|uid|source|sourceId|sourceId partial]; simpl perform.
  - rewrite addLLMs_llms, fmap_app. apply NoDup_app. split_and!.
    + by apply uid_unique_filter.
    + intros u (existing & -> & [Hkeep _]%list_elem_of_filter)%list_elem_of_fmap.
      done.
    + by apply Hinput.
  - by apply uid_unique_filter.
  - done.
  - by apply uid_unique_filter.
  - done.
Qed.

(** C7, on the code: the store reached from the empty one by a single
    [addLLMs] of two models that share a uid holds both of them, so the uids
    of a reachable state need not be distinct. *)
Theorem uid_unique_broken_by_repeated_input :
  let m1 := DLLM.make "gpt-4" "openai" "gpt-4-0613" "GPT-4" 8192%Z true true None None None in
  let m2 := DLLM.make "gpt-4" "openai" "gpt-4-0613" "GPT-4 (June)" 8192%Z true true None None None in
  let state := run [AddLLMs [m1; m2]] initialStore in
  reachable state
  ∧ llms state = [m1; m2]
  ∧ ¬ uid_unique state.
Proof.
  intros m1 m2 state. split_and!.
  - by exists [AddLLMs [m1; m2]].
  - reflexivity.
  - unfold uid_unique. simpl. intros Hnodup.
    apply NoDup_cons in Hnodup as [Hnotin _]. apply Hnotin. left.
Qed.

(** *** The persona table *)

(** C8, on the code: the table has a record for every member of
    [SystemPurposeId] but ['Designer'], for which it has none; it has one
    under ['Artist'], which is no member. The default id, ['Generic'], is a
    member and has its record. *)
Theorem SystemPurposes_lacks_Designer :
  Designer ∈ allSystemPurposeIds
  ∧ SystemPurposes_get (purposeKey Designer) = None
  ∧ (∀ id, id ≠ Designer → is_Some (SystemPurposes_get (purposeKey id)))
  ∧ is_Some (SystemPurposes_get "Artist")
  ∧ (∀ id, purposeKey id ≠ "Artist")
  ∧ defaultSystemPurposeId ∈ allSystemPurposeIds
  ∧ title <$> SystemPurposes_get (purposeKey defaultSystemPurposeId) = Some "Default".
Proof.
  split_and!.
  - unfold allSystemPurposeIds. set_solver.
  - reflexivity.
  - intros [] Hne; try done; vm_compute; eauto.
  - vm_compute. eauto.
  - by intros [].
  - unfold allSystemPurposeIds, defaultSystemPurposeId. set_solver.
  - reflexivity.
Qed.

(** ** Further properties of the store *)

(** Two states with the same collections are the same state. *)
Lemma ModelsStore_eq (s1 s2 : ModelsStore) :
  llms s1 = llms s2 → sources s1 = sources s2 → s1 = s2.
Proof. destruct s1, s2. simpl. by intros -> ->. Qed.

Lemma filter_idemp {A} (P : A → Prop) `{!∀ x, Decision (P x)} (l : list A) :
  filter P (filter P l) = filter P l.
Proof. by apply list_filter_filter_l. Qed.

Lemma filter_comm {A} (P Q : A → Prop)
    `{!∀ x, Decision (P x), !∀ x, Decision (Q x)} (l : list A) :
  filter P (filter Q l) = filter Q (filter P l).
Proof. rewrite !list_filter_filter. apply list_filter_iff. tauto. Qed.

(** *** Removing what was just added *)

(** X1. Adding one model and then removing its uid leaves the store as if
    the uid had been removed from the start: the added model is gone together
    with every older model of that uid. When the store had no model of that
    uid, the two calls give back the store they started from. *)
Theorem removeLLM_addLLMs_cancel (state : ModelsStore) (m : DLLM) :
  removeLLM (DLLM.uid m) (addLLMs [m] state) = removeLLM (DLLM.uid m) state
  ∧ ((∀ existing, existing ∈ llms state → DLLM.uid existing ≠ DLLM.uid m) →
     removeLLM (DLLM.uid m) (addLLMs [m] state) = state).
Proof.
  assert (removeLLM (DLLM.uid m) (addLLMs [m] state)
          = removeLLM (DLLM.uid m) state) as Hcancel.
  { apply ModelsStore_eq; [|done].
    change (llms (removeLLM (DLLM.uid m) (addLLMs [m] state)))
      with (filter (λ model, DLLM.uid model ≠ DLLM.uid m) (llms (addLLMs [m] state))).
    rewrite addLLMs_llms, filter_app.
    rewrite (filter_cons_False _ m) by (intros Hne; by apply Hne).
    rewrite filter_nil, app_nil_r.
    apply list_filter_filter_l. intros existing Hne.
    simpl. rewrite list_elem_of_singleton. done. }
  split; [done|].
  intros Hfresh. rewrite Hcancel. by apply removeLLM_absent.
Qed.

Lemma removeLLM_addLLMs_cancel_witness :
  let older := DLLM.make "claude" "anthropic" "claude-2" "Claude" 100000%Z true true None None None in
  let m := DLLM.make "gpt-4" "openai" "gpt-4-0613" "GPT-4" 8192%Z true true None None None in
  let state := {| llms := [older]; sources := [] |} in
  removeLLM "gpt-4" (addLLMs [m] state) = state.
Proof.
  intros older m state.
  apply (removeLLM_addLLMs_cancel state m).
  intros existing ->%list_elem_of_singleton. done.
Defined.

(** X2. Removing the id of a source that was just added leaves the store as
    if the id had been removed from the start, so an older source of the same
    id, and every model that refers to the id, go with it. When no source had
    the id and no model referred to it, the two calls give back the store
    they started from. *)
Theorem removeSource_addSource_cancel (state : ModelsStore) (source : DModelSource) :
  removeSource (DModelSource.id source) (addSource source state)
  = removeSource (DModelSource.id source) state
  ∧ ((∀ other, other ∈ sources state →
        DModelSource.id other ≠ DModelSource.id source) →
     (∀ m, m ∈ llms state → DLLM._sourceId m ≠ DModelSource.id source) →
     removeSource (DModelSource.id source) (addSource source state) = state).
Proof.
  assert (removeSource (DModelSource.id source) (addSource source state)
          = removeSource (DModelSource.id source) state) as Hcancel.
  { apply ModelsStore_eq; [done|].
    rewrite !removeSource_sources. simpl.
    rewrite filter_app, (filter_cons_False _ source) by (intros Hne; by apply Hne).
    by rewrite filter_nil, app_nil_r. }
  split; [done|].
  intros Hsources Hllms. rewrite Hcancel. by apply removeSource_absent.
Qed.

Lemma removeSource_addSource_cancel_witness :
  let m := DLLM.make "gpt-4" "openai" "gpt-4-0613" "GPT-4" 8192%Z true true None None None in
  let openai := DModelSource.make "openai" "OpenAI" "openai" None in
  let localai := DModelSource.make "localai" "LocalAI" "localai" None in
  let state := {| llms := [m]; sources := [openai] |} in
  removeSource "localai" (addSource localai state) = state.
Proof.
  intros m openai localai state.
  apply (removeSource_addSource_cancel state localai).
  - intros other ->%list_elem_of_singleton. done.
  - intros m' ->%list_elem_of_singleton. done.
Defined.

(** *** Repeating and reordering calls *)

(** X3. [addLLMs] with the same list a second time changes nothing, whatever
    the list (even one that repeats a uid). *)
Theorem addLLMs_idempotent (state : ModelsStore) (models : list DLLM) :
  addLLMs models (addLLMs models state) = addLLMs models state.
Proof.
  apply ModelsStore_eq; [|done].
  rewrite (addLLMs_llms models (addLLMs models state)), !addLLMs_llms.
  rewrite filter_app, filter_idemp.
  rewrite (filter_none_nil _ models).
  - by rewrite app_nil_r.
  - intros m Hin Hnot. apply Hnot. by apply list_elem_of_fmap_2.
Qed.

(** X4. Removals can be repeated and reordered: removing a source id twice
    is removing it once, two source ids can be removed in either order, and
    the same holds of model uids; removing a source and removing a model
    commute as well. *)
Theorem removals_commute (state : ModelsStore) :
  (∀ x, removeSource x (removeSource x state) = removeSource x state)
  ∧ (∀ x y, removeSource x (removeSource y state)
            = removeSource y (removeSource x state))
  ∧ (∀ u, removeLLM u (removeLLM u state) = removeLLM u state)
  ∧ (∀ u v, removeLLM u (removeLLM v state) = removeLLM v (removeLLM u state))
  ∧ (∀ x u, removeSource x (removeLLM u state) = removeLLM u (removeSource x state)).
Proof.
  split_and!.
  - intros x. apply ModelsStore_eq; simpl; apply filter_idemp.
  - intros x y. apply ModelsStore_eq; simpl; apply filter_comm.
  - intros u. apply ModelsStore_eq; [simpl; apply filter_idemp | done].
  - intros u v. apply ModelsStore_eq; [simpl; apply filter_comm | done].
  - intros x u. apply ModelsStore_eq; [simpl; apply filter_comm | done].
Qed.

(** *** Conditions kept along the calls *)

Lemma run_cons (a : action) (trace : list action) (state : ModelsStore) :
  run (a :: trace) state = run trace (perform a state).
Proof. reflexivity. Qed.

(** X5. Starting from a store whose uids are distinct (the empty store, for
    one), any sequence of calls in which no list given to [addLLMs] repeats a
    uid leads to a store whose uids are distinct. *)
Theorem run_uid_unique (trace : list action) (state : ModelsStore) :
  Forall distinct_uid_input trace →
  uid_unique state →
  uid_unique (run trace state).
Proof.
  intros Hinput. revert state.
  induction Hinput as [|a trace Ha _ IH]; intros state Hstate; [done|].
  rewrite run_cons. apply IH, perform_uid_unique; [|done].
  by intros models ->.
Qed.

Lemma run_uid_unique_witness :
  let m1 := DLLM.make "gpt-4" "openai" "gpt-4-0613" "GPT-4" 8192%Z true true None None None in
  let m2 := DLLM.make "gpt-4" "openai" "gpt-4-0613" "GPT-4 (June)" 8192%Z true true None None None in
  uid_unique (run [AddLLMs [m1]; AddLLMs [m2]; RemoveSource "localai"] initialStore).
Proof.
  intros m1 m2. apply run_uid_unique.
  - repeat constructor; simpl; set_solver.
  - constructor.
Defined.

Lemma updateSourceSetup_ids (sourceId : DModelSourceId)
    (partial : gmap string jsval) (state : ModelsStore) :
  DModelSource.id <$> sources (updateSourceSetup sourceId partial state)
  = DModelSource.id <$> sources state.
Proof.
  simpl. rewrite <- list_fmap_compose. apply list_fmap_ext.
  intros i source _. simpl. by case_bool_decide.
Qed.

Lemma sources_ids_filter (P : DModelSource → Prop) `{!∀ s, Decision (P s)}
    (srcs : list DModelSource) :
  NoDup (DModelSource.id <$> srcs) → NoDup (DModelSource.id <$> filter P srcs).
Proof.
  intros Hnodup. eapply sublist_NoDup; [exact Hnodup|].
  apply fmap_sublist, sublist_filter.
Qed.

Lemma sources_unique_addSource (source : DModelSource) (state : ModelsStore) :
  DModelSource.id source ∉ DModelSource.id <$> sources state →
  sources_unique state →
  sources_unique (addSource source state).
Proof.
  unfold sources_unique. intros Hfresh Hstate.
  simpl. rewrite fmap_app. apply NoDup_app. split_and!.
  - done.
  - intros id Hin Hnew. simpl in Hnew.
    by apply list_elem_of_singleton in Hnew as ->.
  - simpl. apply NoDup_singleton.
Qed.

(** X6. Every call keeps the ids of the sources distinct, as long as a
    source given to [addSource] has an id that no source of the store has:
    [addSource] itself checks nothing, the other calls never introduce an
    id. *)
Theorem perform_sources_unique (a : action) (state : ModelsStore) :
  (∀ source, a = AddSource source →
     DModelSource.id source ∉ DModelSource.id <$> sources state) →
  sources_unique state →
  sources_unique (perform a state).
Proof.
  unfold sources_unique. intros Hfresh Hstate.
  destruct a as [models|uid|source|sourceId|sourceId partial]; simpl perform.
  - done.
  - done.
  - apply sources_unique_addSource; [by apply Hfresh | done].
  - rewrite removeSource_sources. by apply sources_ids_filter.
  - by rewrite updateSourceSetup_ids.
Qed.

Lemma perform_sources_unique_witness :
  let openai := DModelSource.make "openai" "OpenAI" "openai" None in
  let localai := DModelSource.make "localai" "LocalAI" "localai" None in
  sources_unique (perform (AddSource localai) {| llms := []; sources := [openai] |}).
Proof.
  intros openai localai. apply perform_sources_unique.
  - intros source [= <-]. simpl. by intros ?%list_elem_of_singleton.
  - unfold sources_unique. simpl. apply NoDup_singleton.
Defined.

(** [addSource] of an id the store already has breaks the condition. *)
Example addSource_duplicate_id :
  let openai := DModelSource.make "openai" "OpenAI" "openai" None in
  let state := {| llms := []; sources := [openai] |} in
  sources_unique state ∧ ¬ sources_unique (addSource openai state).
Proof.
  intros openai state. unfold sources_unique. simpl. split.
  - apply NoDup_singleton.
  - intros Hnodup. apply NoDup_cons in Hnodup as [Hnotin _]. apply Hnotin. left.
Qed.

(** X7. Referential integrity is kept by every call, as long as the models
    given to [addLLMs] refer to sources of the store: in particular
    [removeSource], which takes away the models of the source it removes,
    never leaves a model without its source. *)
Theorem perform_no_dangling (a : action) (state : ModelsStore) :
  (∀ models, a = AddLLMs models →
     ∀ m, m ∈ models → DLLM._sourceId m ∈ DModelSource.id <$> sources state) →
  no_dangling state →
  no_dangling (perform a state).
Proof.
  unfold no_dangling. intros Hinput Hstate.
  destruct a as [models|uid|source|sourceId|sourceId partial]; simpl perform.
  - intros m. rewrite addLLMs_llms, elem_of_app, list_elem_of_filter.
    intros [[_ Hin]|Hin]; [by apply Hstate | by apply (Hinput models)].
  - intros m [_ Hin]%list_elem_of_filter. by apply Hstate.
  - intros m Hin. simpl. rewrite fmap_app, elem_of_app. left. by apply Hstate.
  - intros m. rewrite removeSource_llms, removeSource_sources.
    intros [Hne Hin]%list_elem_of_filter.
    apply Hstate in Hin. apply list_elem_of_fmap in Hin as (source & Heq & Hin).
    apply list_elem_of_fmap. exists source. split; [done|].
    apply list_elem_of_filter. split; [congruence | done].
  - intros m Hin. rewrite updateSourceSetup_ids. by apply Hstate.
Qed.

Lemma perform_no_dangling_witness :
  let m := DLLM.make "gpt-4" "openai" "gpt-4-0613" "GPT-4" 8192%Z true true None None None in
  let openai := DModelSource.make "openai" "OpenAI" "openai" None in
  no_dangling (perform (RemoveSource "openai") {| llms := [m]; sources := [openai] |}).
Proof.
  intros m openai. apply perform_no_dangling.
  - intros models [=].
  - intros m' ->%list_elem_of_singleton. simpl. left.
Defined.

(** X8. In the joined view the vendor id is [null] exactly for the models
    whose [_sourceId] is the id of no source; the label ['Unknown'] is given
    to those models, but a source may carry that label too. *)
Theorem useJoinedLLMs_null_vendor (state : ModelsStore) (joined : JoinedLLM) :
  joined ∈ useJoinedLLMs state →
  (vendorId joined = None
   ↔ DLLM._sourceId (model joined) ∉ DModelSource.id <$> sources state)
  ∧ (vendorId joined = None → sourceLabel joined = "Unknown").
Proof.
  unfold useJoinedLLMs. intros (m & -> & Hm)%list_elem_of_fmap. simpl.
  destruct (array_find _ (sources state)) as [source|] eqn:Hfind; simpl.
  - apply array_find_Some in Hfind as (k & Hk & Hid & _).
    split; [|done]. split; [done|]. intros Hnot. destruct Hnot.
    apply list_elem_of_fmap. exists source.
    split; [done | by eapply list_elem_of_lookup_2].
  - split; [|done]. split; [|done]. intros _.
    intros (source & Heq & Hin)%list_elem_of_fmap.
    by apply (proj1 (array_find_None _ _) Hfind source).
Qed.

Lemma useJoinedLLMs_null_vendor_witness :
  let orphan := DLLM.make "old-llama" "removed" "llama" "Llama" 4096%Z true true None None None in
  let state :=
    {| llms := [orphan];
       sources := [DModelSource.make "openai" "Unknown" "openai" None] |} in
  let joined := {| model := orphan; sourceLabel := "Unknown"; vendorId := None |} in
  DLLM._sourceId (model joined) ∉ DModelSource.id <$> sources state.
Proof.
  intros orphan state joined.
  apply (useJoinedLLMs_null_vendor state joined); [simpl; left | reflexivity].
Defined.

(** *** Updates of a setup *)

Lemma updateSourceSetup_sources (sourceId : DModelSourceId)
    (partial : gmap string jsval) (state : ModelsStore) :
  sources (updateSourceSetup sourceId partial state)
  = overlaySetup sourceId partial <$> sources state.
Proof. reflexivity. Qed.

Lemma overlaySetup_id sourceId partial source :
  DModelSource.id (overlaySetup sourceId partial source) = DModelSource.id source.
Proof. unfold overlaySetup. by case_bool_decide. Qed.

Lemma overlaySetup_label sourceId partial source :
  DModelSource.label (overlaySetup sourceId partial source) = DModelSource.label source.
Proof. unfold overlaySetup. by case_bool_decide. Qed.

Lemma overlaySetup_vendorId sourceId partial source :
  DModelSource.vendorId (overlaySetup sourceId partial source)
  = DModelSource.vendorId source.
Proof. unfold overlaySetup. by case_bool_decide. Qed.

(** [find] by id commutes with a map that keeps the ids. *)
Lemma array_find_id_fmap (f : DModelSource → DModelSource) (x : DModelSourceId)
    (srcs : list DModelSource) :
  (∀ source, DModelSource.id (f source) = DModelSource.id source) →
  array_find (λ source, DModelSource.id source = x) (f <$> srcs)
  = f <$> array_find (λ source, DModelSource.id source = x) srcs.
Proof.
  intros Hid. unfold array_find.
  induction srcs as [|source srcs IH]; [done|]. csimpl.
  rewrite Hid. case_decide; [done|].
  destruct (list_find _ (f <$> srcs)) as [[i found]|],
           (list_find _ srcs) as [[j found']|]; simpl in *; congruence.
Qed.

(** X9. Two updates of the same source are one update with the later
    properties laid over the earlier ones, so repeating an update changes
    nothing; updates of two different ids can be made in either order. *)
Theorem updateSourceSetup_compose (state : ModelsStore) :
  (∀ sourceId first second,
     updateSourceSetup sourceId second (updateSourceSetup sourceId first state)
     = updateSourceSetup sourceId (second ∪ first) state)
  ∧ (∀ sourceId partial,
       updateSourceSetup sourceId partial (updateSourceSetup sourceId partial state)
       = updateSourceSetup sourceId partial state)
  ∧ (∀ a b forA forB,
       a ≠ b →
       updateSourceSetup a forA (updateSourceSetup b forB state)
       = updateSourceSetup b forB (updateSourceSetup a forA state)).
Proof.
  assert (∀ sourceId first second,
     updateSourceSetup sourceId second (updateSourceSetup sourceId first state)
     = updateSourceSetup sourceId (second ∪ first) state) as Hcompose.
  { intros sourceId first second. apply ModelsStore_eq; [done|].
    rewrite !updateSourceSetup_sources, <- list_fmap_compose.
    apply list_fmap_ext. intros i source _. simpl.
    unfold overlaySetup.
    destruct (decide (DModelSource.id source = sourceId)) as [Hid|Hid].
    - repeat first
        [ rewrite (bool_decide_eq_true_2 (DModelSource.id source = sourceId) Hid)
        | progress simpl ].
      unfold spread. simpl. by rewrite (assoc_L (∪)).
    - by repeat first
        [ rewrite (bool_decide_eq_false_2 (DModelSource.id source = sourceId) Hid)
        | progress simpl ]. }
  split_and!.
  - exact Hcompose.
  - intros sourceId partial. by rewrite Hcompose, (idemp_L (∪)).
  - intros a b forA forB Hne. apply ModelsStore_eq; [done|].
    rewrite !updateSourceSetup_sources, <- !list_fmap_compose.
    apply list_fmap_ext. intros i source _. simpl.
    unfold overlaySetup.
    destruct (decide (DModelSource.id source = a)) as [Ha|Ha],
             (decide (DModelSource.id source = b)) as [Hb|Hb].
    + congruence.
    + by repeat first
        [ rewrite (bool_decide_eq_false_2 (DModelSource.id source = b) Hb)
        | rewrite (bool_decide_eq_true_2 (DModelSource.id source = a) Ha)
        | progress simpl ].
    + by repeat first
        [ rewrite (bool_decide_eq_true_2 (DModelSource.id source = b) Hb)
        | rewrite (bool_decide_eq_false_2 (DModelSource.id source = a) Ha)
        | progress simpl ].
    + by repeat first
        [ rewrite (bool_decide_eq_false_2 (DModelSource.id source = b) Hb)
        | rewrite (bool_decide_eq_false_2 (DModelSource.id source = a) Ha)
        | progress simpl ].
Qed.

Lemma updateSourceSetup_compose_witness :
  let state :=
    {| llms := [];
       sources := [DModelSource.make "openai" "OpenAI" "openai" None;
                   DModelSource.make "localai" "LocalAI" "localai" None] |} in
  updateSourceSetup "openai" {[ "oaiKey" := JStr "sk-0" ]}
    (updateSourceSetup "localai" {[ "host" := JStr "http://localhost:8080" ]} state)
  = updateSourceSetup "localai" {[ "host" := JStr "http://localhost:8080" ]}
      (updateSourceSetup "openai" {[ "oaiKey" := JStr "sk-0" ]} state).
Proof.
  intros state.
  destruct (updateSourceSetup_compose state) as (_ & _ & Hcomm).
  by apply Hcomm.
Defined.

(** X10. An update of a setup changes no id, label or vendor id, hence
    nothing of the joined view. *)
Theorem updateSourceSetup_joined (state : ModelsStore)
    (sourceId : DModelSourceId) (partial : gmap string jsval) :
  DModelSource.id <$> sources (updateSourceSetup sourceId partial state)
  = DModelSource.id <$> sources state
  ∧ DModelSource.label <$> sources (updateSourceSetup sourceId partial state)
    = DModelSource.label <$> sources state
  ∧ DModelSource.vendorId <$> sources (updateSourceSetup sourceId partial state)
    = DModelSource.vendorId <$> sources state
  ∧ useJoinedLLMs (updateSourceSetup sourceId partial state) = useJoinedLLMs state.
Proof.
  split_and!.
  - apply updateSourceSetup_ids.
  - rewrite updateSourceSetup_sources, <- list_fmap_compose.
    apply list_fmap_ext. intros i source _. apply overlaySetup_label.
  - rewrite updateSourceSetup_sources, <- list_fmap_compose.
    apply list_fmap_ext. intros i source _. apply overlaySetup_vendorId.
  - unfold useJoinedLLMs.
    change (llms (updateSourceSetup sourceId partial state)) with (llms state).
    apply list_fmap_ext. intros i m _.
    rewrite updateSourceSetup_sources.
    rewrite (array_find_id_fmap _ _ _ (overlaySetup_id sourceId partial)).
    destruct (array_find _ (sources state)) as [source|]; simpl; [|done].
    by rewrite overlaySetup_label, overlaySetup_vendorId.
Qed.

(** *** The source-setup hook *)

Section useSourceSetup.
Context {T : Type} (normalizer : option (gmap string jsval) → T).

(** X11. What the hook reads after its own [updateSetup]: when a source has
    the hook's id, the normalizer is given the update laid over the setup of
    the first such source (over nothing, if it had no setup), so every
    property written is read back; when no source has the id, the update
    changes nothing and the normalizer is given [undefined], as before. *)
Theorem useSourceSetup_read_after_update (sourceId : DModelSourceId)
    (state : ModelsStore) (partial : gmap string jsval) :
  let hook := useSourceSetup sourceId normalizer state in
  let state' := SourceSetup.updateSetup hook partial state in
  (∀ source,
     array_find (λ source, DModelSource.id source = sourceId) (sources state)
     = Some source →
     SourceSetup.setup (useSourceSetup sourceId normalizer state')
     = normalizer (Some (partial ∪ default ∅ (DModelSource.setup source))))
  ∧ (array_find (λ source, DModelSource.id source = sourceId) (sources state)
     = None →
     state' = state
     ∧ SourceSetup.setup hook = normalizer None
     ∧ SourceSetup.setup (useSourceSetup sourceId normalizer state')
       = normalizer None).
Proof.
  intros hook state'.
  change state' with (updateSourceSetup sourceId partial state).
  split.
  - intros source Hfind. simpl.
    rewrite (array_find_id_fmap _ _ _ (overlaySetup_id sourceId partial)), Hfind.
    simpl. apply array_find_Some in Hfind as (i & _ & Hid & _).
    unfold overlaySetup. by rewrite (bool_decide_eq_true_2 _ Hid).
  - intros Hfind.
    rewrite updateSourceSetup_absent
      by exact (proj1 (array_find_None _ _) Hfind).
    unfold hook. simpl. by rewrite Hfind.
Qed.

(** X12. An update made through the hook of one id is not seen by the hook
    of another id. *)
Theorem useSourceSetup_other_id (sourceId other : DModelSourceId)
    (state : ModelsStore) (partial : gmap string jsval) :
  sourceId ≠ other →
  SourceSetup.setup
    (useSourceSetup other normalizer
       (SourceSetup.updateSetup (useSourceSetup sourceId normalizer state)
          partial state))
  = SourceSetup.setup (useSourceSetup other normalizer state).
Proof.
  intros Hne. simpl.
  change (sources (updateSourceSetup sourceId partial state))
    with (overlaySetup sourceId partial <$> sources state).
  rewrite (array_find_id_fmap _ _ _ (overlaySetup_id sourceId partial)).
  destruct (array_find _ (sources state)) as [source|] eqn:Hfind; [|done].
  simpl. apply array_find_Some in Hfind as (i & _ & Hid & _).
  unfold overlaySetup. rewrite bool_decide_eq_false_2; [done|]. congruence.
Qed.
End useSourceSetup.

Lemma useSourceSetup_read_after_update_witness :
  let state :=
    {| llms := [];
       sources := [DModelSource.make "openai" "OpenAI" "openai"
                     (Some {[ "oaiHost" := JStr "api.openai.com" ]})] |} in
  SourceSetup.setup
    (useSourceSetup "openai" (default ∅)
       (updateSourceSetup "openai" {[ "oaiKey" := JStr "sk-0" ]} state))
  = {[ "oaiHost" := JStr "api.openai.com"; "oaiKey" := JStr "sk-0" ]}.
Proof.
  intros state.
  destruct (useSourceSetup_read_after_update (default ∅) "openai" state
              {[ "oaiKey" := JStr "sk-0" ]}) as [Hread _].
  etrans; [exact (Hread _ eq_refl) | reflexivity].
Defined.

Lemma useSourceSetup_other_id_witness :
  let state :=
    {| llms := [];
       sources := [DModelSource.make "openai" "OpenAI" "openai" None;
                   DModelSource.make "localai" "LocalAI" "localai" None] |} in
  SourceSetup.setup
    (useSourceSetup "localai" (default ∅)
       (updateSourceSetup "openai" {[ "oaiKey" := JStr "sk-0" ]} state))
  = ∅.
Proof.
  intros state.
  assert ("openai" ≠ "localai") as Hne by done.
  etrans; [|reflexivity].
  exact (useSourceSetup_other_id (default ∅) "openai" "localai" state
           {[ "oaiKey" := JStr "sk-0" ]} Hne).
Defined.

(** *** More on [findUniqueSourceId] *)

Section findUniqueSourceId_more.
Variable vendorId : ModelVendorId.

(** What a result says about the ids tried. *)
Lemma findUniqueSourceId_Some (otherSources : list DModelSource) id count :
  findUniqueSourceId vendorId otherSources = Some (id, count) →
  id = candidate vendorId count
  ∧ (candidate vendorId count ∉ DModelSource.id <$> otherSources)
  ∧ ∀ k, k < count → candidate vendorId k ∈ DModelSource.id <$> otherSources.
Proof.
  intros Hrun.
  destruct (findUniqueSourceId_loop_stops vendorId otherSources
              (S (length otherSources)) 0)
    as (final & Hfinal & _ & _ & Hfree & Hbelow); [lia | lia |].
  unfold findUniqueSourceId, findUniqueSourceId_fuel in Hrun.
  change (candidate vendorId 0) with vendorId in Hfinal.
  rewrite Hfinal in Hrun. by injection Hrun as <- <-.
Qed.

(** The first id that is free is the one returned. *)
Lemma findUniqueSourceId_first_free (otherSources : list DModelSource) count :
  candidate vendorId count ∉ DModelSource.id <$> otherSources →
  (∀ k, k < count → candidate vendorId k ∈ DModelSource.id <$> otherSources) →
  findUniqueSourceId vendorId otherSources = Some (candidate vendorId count, count).
Proof.
  intros Hfree Hbelow.
  destruct (findUniqueSourceId_loop_stops vendorId otherSources
              (S (length otherSources)) 0)
    as (final & Hfinal & _ & _ & Hfree' & Hbelow'); [lia | lia |].
  destruct (lt_eq_lt_dec final count) as [[Hlt| ->]|Hlt].
  - destruct Hfree'. by apply Hbelow.
  - exact Hfinal.
  - destruct Hfree. by apply Hbelow'.
Qed.

(** X13. The vendor id itself is returned, with count 0, exactly when no
    source has it as its id; on an empty list in particular. *)
Theorem findUniqueSourceId_vendorId_free (otherSources : list DModelSource) :
  (findUniqueSourceId vendorId otherSources = Some (vendorId, 0)
   ↔ vendorId ∉ DModelSource.id <$> otherSources)
  ∧ (∀ id count,
       findUniqueSourceId vendorId otherSources = Some (id, count) →
       (count = 0 ↔ vendorId ∉ DModelSource.id <$> otherSources))
  ∧ findUniqueSourceId vendorId [] = Some (vendorId, 0).
Proof.
  split_and!; [| |done].
  - split.
    + by intros (_ & Hfree & _)%findUniqueSourceId_Some.
    + intros Hfree. apply (findUniqueSourceId_first_free otherSources 0 Hfree).
      intros k Hk. lia.
  - intros id count (_ & Hfree & Hbelow)%findUniqueSourceId_Some. split.
    + by intros ->.
    + intros Hvendor. destruct count as [|count]; [done|].
      destruct Hvendor. apply (Hbelow 0). lia.
Qed.

(** X14. The result depends on the sources only through the set of their
    ids: their order, their number of repetitions and their other fields play
    no part. *)
Theorem findUniqueSourceId_ids_only (sources1 sources2 : list DModelSource) :
  (∀ id, id ∈ DModelSource.id <$> sources1 ↔ id ∈ DModelSource.id <$> sources2) →
  findUniqueSourceId vendorId sources1 = findUniqueSourceId vendorId sources2.
Proof.
  intros Hsame.
  destruct (findUniqueSourceId_loop_stops vendorId sources1 (S (length sources1)) 0)
    as (final & Hfinal & _ & _ & Hfree & Hbelow); [lia | lia |].
  unfold findUniqueSourceId at 1. unfold findUniqueSourceId_fuel.
  change (candidate vendorId 0) with vendorId in Hfinal. rewrite Hfinal.
  symmetry. apply findUniqueSourceId_first_free.
  - by rewrite <- Hsame.
  - intros k Hk. apply Hsame. by apply Hbelow.
Qed.

(** X15. A source added under the id that was found keeps the ids of the
    sources distinct, and the next search for the same vendor finds another
    id, with a larger count. *)
Theorem addSource_found_id (state : ModelsStore) (label : string)
    (setup : option (gmap string jsval)) id count :
  findUniqueSourceId vendorId (sources state) = Some (id, count) →
  let state' :=
    addSource {| DModelSource.id := id; DModelSource.label := label;
                 DModelSource.vendorId := vendorId;
                 DModelSource.setup := setup |} state in
  (sources_unique state → sources_unique state')
  ∧ ∃ id' count',
      findUniqueSourceId vendorId (sources state') = Some (id', count')
      ∧ count < count' ∧ id' ≠ id.
Proof.
  intros (-> & Hfree & Hbelow)%findUniqueSourceId_Some state'. split.
  - intros Hunique. by apply sources_unique_addSource.
  - destruct (findUniqueSourceId_loop_stops vendorId (sources state')
                (S (length (sources state'))) 0)
      as (final & Hfinal & _ & _ & Hfree' & Hbelow'); [lia | lia |].
    assert (∀ k, k ≤ count →
              candidate vendorId k ∈ DModelSource.id <$> sources state') as Htaken.
    { intros k Hk. unfold state'. simpl. rewrite fmap_app, elem_of_app.
      destruct (decide (k = count)) as [->|Hne].
      - right. simpl. left.
      - left. apply Hbelow. lia. }
    assert (count < final) as Hlt.
    { destruct (decide (count < final)) as [|Hge]; [done|].
      destruct Hfree'. apply Htaken. lia. }
    exists (candidate vendorId final), final. split_and!; [done | done |].
    intros Heq. apply candidate_inj in Heq. lia.
Qed.
End findUniqueSourceId_more.

Lemma findUniqueSourceId_vendorId_free_witness :
  ∃ id, findUniqueSourceId "openai"
          [DModelSource.make "localai" "LocalAI" "localai" None] = Some (id, 0).
Proof.
  exists "openai".
  destruct (findUniqueSourceId_vendorId_free "openai"
              [DModelSource.make "localai" "LocalAI" "localai" None])
    as ([_ Hfree] & _ & _).
  apply Hfree. simpl. by intros ?%list_elem_of_singleton.
Defined.

Lemma findUniqueSourceId_ids_only_witness :
  let a := DModelSource.make "openai" "OpenAI" "openai" None in
  let b := DModelSource.make "openai-1" "OpenAI #2" "openai" None in
  let b' := DModelSource.make "openai-1" "renamed" "openai" (Some ∅) in
  findUniqueSourceId "openai" [a; b] = findUniqueSourceId "openai" [b'; a; b'].
Proof.
  intros a b b'. apply findUniqueSourceId_ids_only.
  intros id. simpl. rewrite !elem_of_cons, !elem_of_nil. tauto.
Defined.

Lemma addSource_found_id_witness :
  let state :=
    {| llms := [];
       sources := [DModelSource.make "openai" "OpenAI" "openai" None] |} in
  sources_unique
    (addSource (DModelSource.make "openai-1" "OpenAI #2" "openai" None) state).
Proof.
  intros state.
  destruct (addSource_found_id "openai" state "OpenAI #2" None "openai-1" 1 eq_refl)
    as [Hunique _].
  apply Hunique. unfold sources_unique. simpl. apply NoDup_singleton.
Defined.

(** *** The joined view across the calls *)

Section array_find_more.
Context {A} (P : A → Prop) `{!∀ x, Decision (P x)}.

Lemma array_find_cons (x : A) (array : list A) :
  array_find P (x :: array) = if decide (P x) then Some x else array_find P array.
Proof.
  unfold array_find. csimpl. case_decide; [done|].
  by destruct (list_find P array) as [[i found]|].
Qed.

Lemma array_find_app (array1 array2 : list A) :
  array_find P (array1 ++ array2)
  = from_option Some (array_find P array2) (array_find P array1).
Proof.
  induction array1 as [|x array1 IH]; [done|].
  rewrite <- app_comm_cons, !array_find_cons. by case_decide.
Qed.

Lemma array_find_filter (Q : A → Prop) `{!∀ x, Decision (Q x)} (array : list A) :
  (∀ x, P x → Q x) →
  array_find P (filter Q array) = array_find P array.
Proof.
  intros Himpl. induction array as [|x array IH]; [done|].
  rewrite filter_cons, (array_find_cons x array).
  destruct (decide (Q x)) as [HQ|HQ].
  - rewrite array_find_cons. by case_decide.
  - rewrite decide_False by (intros HP; by apply HQ, Himpl). done.
Qed.
End array_find_more.

(** X16. After [removeSource x] the joined view is the view of before
    without the tuples of the models that referred to [x]: the tuples that
    stay are unchanged and keep their order. *)
Theorem useJoinedLLMs_removeSource (state : ModelsStore) (x : DModelSourceId) :
  useJoinedLLMs (removeSource x state)
  = filter (λ joined, DLLM._sourceId (model joined) ≠ x) (useJoinedLLMs state).
Proof.
  unfold useJoinedLLMs. rewrite removeSource_llms, removeSource_sources.
  induction (llms state) as [|m models IH]; [done|].
  csimpl. rewrite !filter_cons. simpl.
  destruct (decide (DLLM._sourceId m ≠ x)) as [Hne|Heq]; [|exact IH].
  csimpl. rewrite IH. f_equal.
  rewrite array_find_filter; [done|]. intros source Hid. congruence.
Qed.

(** X17. [addSource] changes the tuple of no model that had a source, even
    when the new source repeats an id (the older source stays the one found),
    and of no model that refers to another id; the models that had no source
    and refer to the new id get its label and vendor id. *)
Theorem useJoinedLLMs_addSource (state : ModelsStore) (source : DModelSource)
    (i : nat) (m : DLLM) :
  llms state !! i = Some m →
  (DLLM._sourceId m ∈ DModelSource.id <$> sources state
   ∨ DLLM._sourceId m ≠ DModelSource.id source →
   useJoinedLLMs (addSource source state) !! i = useJoinedLLMs state !! i)
  ∧ (DLLM._sourceId m ∉ DModelSource.id <$> sources state →
     DLLM._sourceId m = DModelSource.id source →
     useJoinedLLMs (addSource source state) !! i
     = Some {| model := m;
               sourceLabel := DModelSource.label source;
               vendorId := Some (DModelSource.vendorId source) |}).
Proof.
  intros Hm. unfold useJoinedLLMs.
  change (llms (addSource source state)) with (llms state).
  change (sources (addSource source state)) with (sources state ++ [source]).
  rewrite !list_lookup_fmap, Hm. simpl.
  rewrite array_find_app, array_find_cons.
  destruct (array_find _ (sources state)) as [found|] eqn:Hfind; simpl.
  - split; [done|]. intros Hnot. destruct Hnot.
    apply array_find_Some in Hfind as (k & Hk & Hid & _).
    apply list_elem_of_fmap. exists found.
    split; [done | by eapply list_elem_of_lookup_2].
  - split.
    + intros [Hin|Hne].
      * apply list_elem_of_fmap in Hin as (other & Heq & Hin).
        by destruct (proj1 (array_find_None _ _) Hfind other Hin).
      * by rewrite decide_False by congruence.
    + intros _ Heq. by rewrite decide_True by done.
Qed.

Lemma useJoinedLLMs_addSource_witness :
  let m := DLLM.make "gpt-4" "openai" "gpt-4-0613" "GPT-4" 8192%Z true true None None None in
  let first := DModelSource.make "openai" "OpenAI" "openai" None in
  let second := DModelSource.make "openai" "OpenAI (again)" "openai" None in
  let state := {| llms := [m]; sources := [first] |} in
  useJoinedLLMs (addSource second state) !! 0
  = Some {| model := m; sourceLabel := "OpenAI"; vendorId := Some "openai" |}.
Proof.
  intros m first second state.
  destruct (useJoinedLLMs_addSource state second 0 m eq_refl) as [Hsame _].
  rewrite Hsame; [reflexivity|]. left. simpl. left.
Defined.

(** *** How many models a removal takes *)

(** X18. In a store whose uids are distinct, [removeLLM] takes away at most
    one model. *)
Theorem removeLLM_at_most_one (state : ModelsStore) (uid : DLLMId) :
  uid_unique state →
  length (llms state) ≤ S (length (llms (removeLLM uid state))).
Proof.
  unfold uid_unique. simpl.
  induction (llms state) as [|m models IH]; intros Hunique; [simpl; lia|].
  csimpl in Hunique. apply NoDup_cons in Hunique as [Hnotin Hunique].
  rewrite filter_cons. destruct (decide (DLLM.uid m ≠ uid)) as [Hne|Heq].
  - simpl. specialize (IH Hunique). lia.
  - apply dec_stable in Heq. subst uid.
    rewrite filter_all_id; [simpl; lia|].
    intros other Hin Hsame. apply Hnotin. rewrite <- Hsame.
    by apply list_elem_of_fmap_2.
Qed.

Lemma removeLLM_at_most_one_witness :
  let a := DLLM.make "gpt-4" "openai" "gpt-4-0613" "GPT-4" 8192%Z true true None None None in
  let b := DLLM.make "gpt-3.5" "openai" "gpt-3.5-turbo" "GPT-3.5" 4096%Z true true None None None in
  let state := {| llms := [a; b]; sources := [] |} in
  2 ≤ S (length (llms (removeLLM "gpt-4" state))).
Proof.
  intros a b state. apply (removeLLM_at_most_one state "gpt-4").
  unfold uid_unique. simpl. apply NoDup_cons. split.
  - by intros ?%list_elem_of_singleton.
  - apply NoDup_singleton.
Defined.

(** *** Two calls of [addLLMs] *)

(** X19. Two calls of [addLLMs] amount to one call with the models of the
    first list whose uid does not come again in the second, followed by the
    second list: on a shared uid the later call wins. *)
Theorem addLLMs_compose (state : ModelsStore) (first second : list DLLM) :
  addLLMs second (addLLMs first state)
  = addLLMs
      (filter (λ m, DLLM.uid m ∉ DLLM.uid <$> second) first ++ second) state.
Proof.
  apply ModelsStore_eq; [|done].
  rewrite (addLLMs_llms second (addLLMs first state)), !addLLMs_llms.
  rewrite filter_app, <- (assoc_L (++)). f_equal.
  rewrite list_filter_filter. apply list_filter_iff. intros existing.
  rewrite fmap_app, elem_of_app. split.
  - intros [Hsecond Hfirst] [Hin|Hin]; [|done].
    apply list_elem_of_fmap in Hin as (m & Heq & [_ Hm]%list_elem_of_filter).
    apply Hfirst. rewrite Heq. by apply list_elem_of_fmap_2.
  - intros Hnot. split.
    + intros Hin. apply Hnot. by right.
    + intros (m & Heq & Hm)%list_elem_of_fmap.
      destruct (decide (DLLM.uid existing ∈ DLLM.uid <$> second)) as [Hin|Hout].
      * apply Hnot. by right.
      * apply Hnot. left. apply list_elem_of_fmap. exists m.
        split; [done|]. apply list_elem_of_filter. split; [|done].
        by rewrite <- Heq.
Qed.
